(** * HydroSense: the signal generator, the history, the status evaluator and
      the sparkline builder of [src/App.jsx], embedded in Rocq.

    JavaScript numbers are idealised as rationals ([Q]): every constant of
    the program is a short decimal, and the properties proved here are
    about bounds, list structure and text, not about binary rounding.
    Bounds on computed values are closed, or carry a margin, so that they
    hold of the binary arithmetic as well.  [Math.random] and
    [Date.now] are read from an explicit world that is threaded through
    the code in the order the source calls them. *)

From Stdlib Require Import QArith Qminmax Qround Qabs Lqa Lia ZArith.
From Stdlib Require Import List String Ascii DecimalString Bool Sorted.
Import ListNotations.

Open Scope Q_scope.

(* ================================================================= *)
(** ** Numbers *)

(** [a < b] on numbers, as a boolean. *)
Definition Qlt_bool (x y : Q) : bool := negb (Qle_bool y x).

(** [const clamp = (v, a, b) => Math.max(a, Math.min(b, v));] *)
Definition clamp (v a b : Q) : Q := Qmax a (Qmin b v).

(** [function approach(current, target, rate) { return current + (target - current) * rate; }] *)
Definition approach (current target rate : Q) : Q :=
  current + (target - current) * rate.

(** [x || 1] on a number: [0] is falsy. *)
Definition orOne (x : Q) : Q := if Qeq_bool x 0 then 1 else x.

(** [a / b], instrumented: [None] records a division by zero (where
    JavaScript yields [Infinity] or [NaN]). *)
Definition jsdiv (a b : Q) : option Q :=
  if Qeq_bool b 0 then None else Some (a / b).

(** The integer [n] of [Number.prototype.toFixed]: [n / 10^d] is as close
    as possible to [|v|], the larger [n] on a tie. *)
Definition fixedDigits (v : Q) (d : nat) : Z :=
  Qfloor (Qabs v * inject_Z (10 ^ Z.of_nat d) + 0.5).

(** [Number(v.toFixed(d))]: the number the text of [toFixed] denotes. *)
Definition roundTo (v : Q) (d : nat) : Q :=
  let n := inject_Z (fixedDigits v d) / inject_Z (10 ^ Z.of_nat d) in
  if Qlt_bool v 0 then - n else n.

Open Scope string_scope.

Definition digitsOfZ (z : Z) : string :=
  NilZero.string_of_uint (N.to_uint (Z.to_N z)).

Fixpoint zeros (k : nat) : string :=
  match k with O => "" | S k' => "0" ++ zeros k' end.

(** [z] in decimal, padded on the left with zeros to [d] digits. *)
Definition padDigits (z : Z) (d : nat) : string :=
  let s := digitsOfZ z in zeros (d - String.length s) ++ s.

(** [v.toFixed(d)] (for magnitudes below [1e21]): sign taken from [v < 0],
    then the digits of [fixedDigits] with a point before the last [d] of
    them. *)
Definition toFixed (v : Q) (d : nat) : string :=
  let n := fixedDigits v d in
  let p := (10 ^ Z.of_nat d)%Z in
  (if Qlt_bool v 0 then "-" else "")
    ++ digitsOfZ (n / p)
    ++ match d with
       | O => ""
       | _ => "." ++ padDigits (n mod p) d
       end.

(** [const format = (v, d = 2) => Number(v).toFixed(d);] *)
Definition format (v : Q) (d : nat) : string := toFixed v d.

Fixpoint stripZeros (rev_digits : list ascii) : list ascii :=
  match rev_digits with
  | "0"%char :: r => stripZeros r
  | _ => rev_digits
  end.

(** Number-to-text conversion of a template literal ([`${x}`]).  For a
    decimal of at most 17 fractional digits it is that decimal without
    trailing zeros, as JavaScript prints it; longer expansions are cut at
    17 fractional digits (no exponent form: the magnitudes here are between
    [1e-6] and [1e21]). *)
Definition numToString (v : Q) : string :=
  let n := fixedDigits v 17 in
  let p := (10 ^ 17)%Z in
  let frac := rev (stripZeros (rev (list_ascii_of_string (padDigits (n mod p) 17)))) in
  (if Qlt_bool v 0 then "-" else "")
    ++ digitsOfZ (n / p)
    ++ match frac with
       | [] => ""
       | _ => "." ++ string_of_list_ascii frac
       end.

Fixpoint join (sep : string) (l : list string) : string :=
  match l with
  | [] => ""
  | [s] => s
  | s :: rest => s ++ sep ++ join sep rest
  end.


Close Scope string_scope.

(* ================================================================= *)
(** ** The world: [Math.random] and [Date.now] *)

(** The readings still to come: [rng w k] is the value of the [k]-th next
    call of [Math.random()], [clock w k] (milliseconds) that of the [k]-th
    next [Date.now()] or [new Date()]. *)
Record World := mkWorld { rng : nat -> Q; clock : nat -> Z }.

Definition IO (A : Type) : Type := World -> A * World.

Definition ret {A} (a : A) : IO A := fun w => (a, w).

Definition bind {A B} (c : IO A) (k : A -> IO B) : IO B :=
  fun w => let (a, w') := c w in k a w'.

Notation "x <- c ;; k" := (bind c (fun x => k))
  (at level 61, c at next level, right associativity).

(** [Math.random()] *)
Definition random : IO Q :=
  fun w => (rng w 0%nat, mkWorld (fun k => rng w (S k)) (clock w)).

(** [Date.now()], and the instant of [new Date()] *)
Definition dateNow : IO Z :=
  fun w => (clock w 0%nat, mkWorld (rng w) (fun k => clock w (S k))).

(** [const rand = (a, b) => Math.random() * (b - a) + a;] *)
Definition rand (a b : Q) : IO Q :=
  u <- random ;; ret (u * (b - a) + a).

(** [function jitter(prev, minDelta, maxDelta)]: the magnitude is drawn
    first, the sign second. *)
Definition jitter (prev minDelta maxDelta : Q) : IO Q :=
  m <- rand minDelta maxDelta ;;
  s <- random ;;
  let d := m * (if Qlt_bool s 0.5 then -1 else 1) in
  ret (prev + d).

(** [Math.random()] returns a number in [0, 1). *)
Definition rng_ok (w : World) : Prop := forall k, 0 <= rng w k /\ rng w k < 1.

(** The clock never runs backwards. *)
Definition clock_ok (w : World) : Prop :=
  forall k, (clock w k <= clock w (S k))%Z.

(** A world that replays the list [us] of draws, then [u] for ever, and
    the clock readings [ts], then [t] for ever. *)
Definition replay (us : list Q) (u : Q) (ts : list Z) (t : Z) : World :=
  mkWorld (fun k => nth k us u) (fun k => nth k ts t).

(* ================================================================= *)
(** ** Data model *)

(** One reading of the four channels; [timestamp] is the instant (ms) that
    [toISOString] prints. *)
Record Sample := mkSample {
  timestamp : Z;
  pH : Q;
  turbidity : Q;
  temperature : Q;
  waterLevelPercent : Q
}.

(** [const THRESHOLDS = { pH: {min, max}, turbidity: {max},
    temperature: {max}, waterLevelPercent: {min} }] *)
Record Thresholds := mkThresholds {
  pH_min : Q;
  pH_max : Q;
  turbidity_max : Q;
  temperature_max : Q;
  waterLevelPercent_min : Q
}.

Definition THRESHOLDS : Thresholds := mkThresholds 6.5 8.5 5 35 20.

Definition INTERVAL_MS : Z := 1800.
Definition HISTORY_POINTS : nat := 40.

(** The initial value of the [current] state, created at the first render
    (at instant [t0]). *)
Definition initialCurrent (t0 : Z) : Sample := mkSample t0 7.4 1.5 28.0 78.5.

(* ================================================================= *)
(** ** History *)

(** [arr.slice(-n)]: the last [n] elements, all of them when there are
    fewer. *)
Definition sliceLast {A} (n : nat) (arr : list A) : list A :=
  skipn (List.length arr - n) arr.

(** [arr[arr.length - 1]]: [None] is [undefined], on the empty array. *)
Definition lastOf {A} (arr : list A) : option A :=
  nth_error arr (List.length arr - 1).

(* ================================================================= *)
(** ** Signal generator *)

(** One iteration [i] of the seeding loop of the mount effect: the next
    [prev].  The fields of a [Sample] are always present, so the [??]
    defaults of the source never apply. *)
Definition seedStep (prev : Sample) (i : nat) : IO Sample :=
  now <- dateNow ;;
  p <- jitter (pH prev) 0.01 0.08 ;;
  tu <- jitter (turbidity prev) 0.01 0.4 ;;
  te <- jitter (temperature prev) 0.01 0.2 ;;
  dl <- rand 0.02 0.6 ;;
  let level := clamp (waterLevelPercent prev - dl) 0 100 in
  r <- random ;;
  level' <- (if Qlt_bool r 0.03
             then x <- rand 75 100 ;; ret (clamp x 0 100)
             else ret level) ;;
  ret (mkSample
         (now - (Z.of_nat HISTORY_POINTS - Z.of_nat i) * INTERVAL_MS)
         (clamp p 5.5 9.5)
         (clamp tu 0 12)
         (clamp te 18 42)
         level').

(** [for (let i = 0; i < HISTORY_POINTS; i++) { prev = ...; h.push(prev); }]
    with [n] iterations left. *)
Fixpoint seedLoop (n : nat) (i : nat) (prev : Sample) (h : list Sample)
  : IO (list Sample) :=
  match n with
  | O => ret h
  | S n' =>
      prev' <- seedStep prev i ;;
      seedLoop n' (S i) prev' (h ++ [prev'])
  end.

(** The seeded history of the mount effect, from [{ ...current }]. *)
Definition seed (current : Sample) : IO (list Sample) :=
  seedLoop HISTORY_POINTS 0 current [].

(** The body of the timer callback up to [nextPoint]; [last] is
    [prevHist[prevHist.length - 1] || current]. *)
Definition nextSample (last : Sample) : IO Sample :=
  target <- rand 6.8 7.6 ;;
  noise <- rand (-0.03) 0.03 ;;
  let nextPH := clamp (approach (pH last) target 0.08 + noise) 5.0 9.5 in
  dt <- rand (-0.12) 0.28 ;;
  let nextTurb := clamp (turbidity last + dt) 0 20 in
  r1 <- random ;;
  nextTurb <- (if Qlt_bool r1 0.015
               then spike <- rand 2 6 ;; ret (clamp (nextTurb + spike) 0 50)
               else ret nextTurb) ;;
  ttarget <- rand 26 31 ;;
  tnoise <- rand (-0.05) 0.12 ;;
  let nextTemp := clamp (approach (temperature last) ttarget 0.03 + tnoise) 15 45 in
  drop <- rand 0.05 0.5 ;;
  let nextLevel := waterLevelPercent last - drop in
  r2 <- random ;;
  nextLevel <- (if Qlt_bool r2 0.06
                then up <- rand 0.02 0.3 ;; ret (nextLevel + up)
                else ret nextLevel) ;;
  r3 <- random ;;
  nextLevel <- (if Qlt_bool r3 0.02
                then x <- rand 78 100 ;; ret (clamp x 0 100)
                else ret nextLevel) ;;
  let nextLevel := clamp nextLevel 0 100 in
  now <- dateNow ;;
  ret (mkSample now
         (roundTo nextPH 2)
         (roundTo nextTurb 2)
         (roundTo nextTemp 1)
         (roundTo nextLevel 1)).

(** The updater passed to [setHistory] by the timer callback: the new
    history, and the [nextPoint] it hands to [setCurrent].  [current] is
    the value captured by the effect's closure. *)
Definition tick (current : Sample) (prevHist : list Sample)
  : IO (list Sample * Sample) :=
  let last := match lastOf prevHist with Some s => s | None => current end in
  nextPoint <- nextSample last ;;
  let newHist := sliceLast HISTORY_POINTS (prevHist ++ [nextPoint]) in
  ret (newHist, nextPoint).

(** What the updater of the Force Refill button returns: the new history,
    or, from the empty history (where [last] is [undefined] and the spread
    copies nothing), the one-element array whose object has only the
    fields [waterLevelPercent] and [timestamp], which is not a [Sample]. *)
Inductive Refilled :=
| Samples (h : list Sample)
| Fragment (level : Q) (stamp : Z).

(** The updater passed to [setHistory] by the Force Refill button. *)
Definition forceRefill (prev : list Sample) : IO Refilled :=
  let forced := prev in
  x <- rand 82 100 ;;
  now <- dateNow ;;
  match lastOf forced with
  | None => ret (Fragment (clamp x 0 100) now)
  | Some last =>
      let refill :=
        mkSample now (pH last) (turbidity last) (temperature last)
          (clamp x 0 100) in
      ret (Samples (sliceLast HISTORY_POINTS (forced ++ [refill])))
  end.

(* ================================================================= *)
(** ** Status evaluator *)

(** The status strings ["ok"], ["warn"] and ["bad"]. *)
Inductive Level := ok | warn | bad.

Definition Level_eqb (a b : Level) : bool :=
  match a, b with
  | ok, ok | warn, warn | bad, bad => true
  | _, _ => false
  end.

(** The [status] object, with its keys in the order they are written. *)
Record Status := mkStatus {
  st_pH : Level;
  st_turbidity : Level;
  st_temperature : Level;
  st_waterLevel : Level
}.

(** [const status = { pH: ..., turbidity: ..., temperature: ..., waterLevel: ... }] *)
Definition status (th : Thresholds) (current : Sample) : Status :=
  mkStatus
    (if Qle_bool (pH_min th) (pH current) && Qle_bool (pH current) (pH_max th)
     then ok else bad)
    (if Qle_bool (turbidity current) (turbidity_max th) then ok else bad)
    (if Qle_bool (temperature current) (temperature_max th) then ok else warn)
    (if Qle_bool (waterLevelPercent_min th) (waterLevelPercent current)
     then ok else bad).

(** [Object.values(status)] *)
Definition values (st : Status) : list Level :=
  [st_pH st; st_turbidity st; st_temperature st; st_waterLevel st].

(** [Object.values(status).every((s) => s === "ok" || s === "warn")] *)
Definition overallOk (st : Status) : bool :=
  forallb (fun s => Level_eqb s ok || Level_eqb s warn) (values st).

Open Scope string_scope.

Definition pHAlert (th : Thresholds) (current : Sample) : string :=
  "pH " ++ format (pH current) 2 ++ " out of safe range ("
    ++ numToString (pH_min th) ++ "-" ++ numToString (pH_max th) ++ ")".

Definition turbidityAlert (th : Thresholds) (current : Sample) : string :=
  "Turbidity " ++ format (turbidity current) 2 ++ " NTU > "
    ++ numToString (turbidity_max th).

Definition waterLevelAlert (th : Thresholds) (current : Sample) : string :=
  "Water level " ++ numToString (waterLevelPercent current) ++ "% low (< "
    ++ numToString (waterLevelPercent_min th) ++ "%)".

Close Scope string_scope.

(** [const alerts = []; if (status.pH === "bad") alerts.push(...); ...] *)
Definition alerts (th : Thresholds) (current : Sample) (st : Status)
  : list string :=
  let alerts := [] in
  let alerts := if Level_eqb (st_pH st) bad
                then alerts ++ [pHAlert th current] else alerts in
  let alerts := if Level_eqb (st_turbidity st) bad
                then alerts ++ [turbidityAlert th current] else alerts in
  let alerts := if Level_eqb (st_waterLevel st) bad
                then alerts ++ [waterLevelAlert th current] else alerts in
  alerts.

(* ================================================================= *)
(** ** Sparkline path builder *)

Fixpoint mapi {A B} (f : A -> nat -> B) (i : nat) (l : list A) : list B :=
  match l with
  | [] => []
  | a :: l' => f a i :: mapi f (S i) l'
  end.

(** All the results, unless one of them is missing. *)
Fixpoint allSome {A} (l : list (option A)) : option (list A) :=
  match l with
  | [] => Some []
  | None :: _ => None
  | Some a :: l' =>
      match allSome l' with
      | Some r => Some (a :: r)
      | None => None
      end
  end.

Definition ofNat (n : nat) : Q := inject_Z (Z.of_nat n).

(** The coordinates computed by the callback of [values.map] for the value
    [v] at index [i]; [len] is [values.length]. *)
Definition plot (len : nat) (min range w h : Q) (v : Q) (i : nat)
  : option (Q * Q) :=
  match jsdiv (ofNat i) (orOne (ofNat len - 1)) with
  | None => None
  | Some t =>
      let x := t * w in
      match jsdiv (v - min) range with
      | None => None
      | Some r =>
          let y := h - r * h in
          Some (x, y)
      end
  end.

(** The text the callback returns for the point at index [i]. *)
Definition command (p : Q * Q) (i : nat) : string :=
  ((if Nat.eqb i 0 then "M" else "L") ++ " " ++ toFixed (fst p) 1 ++ " "
     ++ toFixed (snd p) 1)%string.

(** The points [sparkPath] draws: none for the empty array (the early
    return); [None] if a division by zero happened on the way. *)
Definition sparkPoints (vals : list Q) (w h : Q) : option (list (Q * Q)) :=
  match vals with
  | [] => Some []
  | v0 :: vs =>
      let max := fold_left Qmax vs v0 in
      let min := fold_left Qmin vs v0 in
      let range := orOne (max - min) in
      allSome (mapi (plot (List.length vals) min range w h) 0 vals)
  end.

(** [function sparkPath(values, w, h)] *)
Definition sparkPath (vals : list Q) (w h : Q) : option string :=
  match sparkPoints vals w h with
  | None => None
  | Some pts => Some (join " " (mapi command 0 pts))
  end.

(* ================================================================= *)
(** ** The component: state, effect, handlers and what a render derives *)

(** The three [useState] cells. *)
Record App := mkApp {
  modeScientific : bool;
  history : list Sample;
  current : Sample
}.

(** The state of the first render, at instant [t0]. *)
Definition initialApp (t0 : Z) : App := mkApp false [] (initialCurrent t0).

(** The synchronous part of the mount effect: [setHistory(h)] and
    [setCurrent(h[h.length - 1])].  The seeded array has forty samples
    ([seed_length] below), so its last element exists. *)
Definition mount (app : App) : IO App :=
  h <- seed (current app) ;;
  ret (mkApp (modeScientific app) h
         (match lastOf h with Some s => s | None => current app end)).

Inductive Event :=
| Timer             (* the interval fires *)
| ForceRefillClick  (* the Force Refill button *)
| ToggleModeClick.  (* the Scientific/Standard View button *)

(** One event; [captured] is the [current] the effect's closure holds.
    [None]: the history would hold an object that is not a [Sample]. *)
Definition handle (captured : Sample) (app : App) (e : Event)
  : IO (option App) :=
  match e with
  | Timer =>
      r <- tick captured (history app) ;;
      ret (Some (mkApp (modeScientific app) (fst r) (snd r)))
  | ForceRefillClick =>
      r <- forceRefill (history app) ;;
      ret (match r with
           | Samples h => Some (mkApp (modeScientific app) h (current app))
           | Fragment _ _ => None
           end)
  | ToggleModeClick =>
      ret (Some (mkApp (negb (modeScientific app)) (history app) (current app)))
  end.

Fixpoint run (captured : Sample) (app : App) (es : list Event)
  : IO (option App) :=
  match es with
  | [] => ret (Some app)
  | e :: es' =>
      r <- handle captured app e ;;
      match r with
      | Some app' => run captured app' es'
      | None => ret None
      end
  end.

(** First render, mount effect, then the events in order. *)
Definition session (es : list Event) : IO (option App) :=
  t0 <- dateNow ;;
  let app0 := initialApp t0 in
  app1 <- mount app0 ;;
  run (current app0) app1 es.

(** What a render derives from the state. *)
Record View := mkView {
  v_status : Status;
  v_overallOk : bool;
  v_alerts : list string;
  v_sparks : list (option string)
}.

Definition render (th : Thresholds) (app : App) : View :=
  let st := status th (current app) in
  let pHSeries := map pH (history app) in
  let turbSeries := map turbidity (history app) in
  let tempSeries := map temperature (history app) in
  mkView st (overallOk st) (alerts th (current app) st)
    [ sparkPath pHSeries 140 36; sparkPath turbSeries 140 36;
      sparkPath tempSeries 140 36; sparkPath pHSeries 300 80;
      sparkPath turbSeries 300 80; sparkPath tempSeries 300 80 ].

(** The tank gauge of the Water Level card: the three backgrounds of the
    fill, the gradients that start at #06b6d4, #f59e0b and #ef4444. *)
Inductive Gradient := cyan | amber | red.

(** [height: `${clamp(current.waterLevelPercent, 0, 100)}%`] *)
Definition tankHeight (current : Sample) : Q :=
  clamp (waterLevelPercent current) 0 100.

(** [background: current.waterLevelPercent > 60 ? ... :
    current.waterLevelPercent > 30 ? ... : ...] *)
Definition tankBackground (current : Sample) : Gradient :=
  if Qlt_bool 60 (waterLevelPercent current) then cyan
  else if Qlt_bool 30 (waterLevelPercent current) then amber
  else red.

(* ================================================================= *)
(** * Specification vocabulary *)

(** From a world satisfying [Pre], [c] returns a result and leaves a world
    that together satisfy [Post]. *)
Definition triple (Pre : World -> Prop) {A} (c : IO A)
  (Post : A -> World -> Prop) : Prop :=
  forall w, Pre w -> Post (fst (c w)) (snd (c w)).

(** The same with an invariant [I] of the world: from any world
    satisfying [I], [c] returns a result satisfying [P] and leaves a world
    satisfying [I]. *)
Definition establishes (I : World -> Prop) {A} (c : IO A) (P : A -> Prop)
  : Prop :=
  triple I c (fun a w' => P a /\ I w').

(** Nothing is assumed of the world. *)
Definition anyWorld (w : World) : Prop := True.

(** [post c P]: with draws in [0, 1), [c] returns a result satisfying [P]. *)
Definition post {A} (c : IO A) (P : A -> Prop) : Prop :=
  establishes rng_ok c P.

(** [always c P]: whatever the world, [c] returns a result satisfying [P]. *)
Definition always {A} (c : IO A) (P : A -> Prop) : Prop :=
  establishes anyWorld c P.

(** [u] is in [0, 1), as a boolean. *)
Definition unitb (u : Q) : bool := Qle_bool 0 u && Qlt_bool u 1.







(** The pH rule of a tick, from the previous value to the stored one. *)
Definition pH_rule (prev next : Q) : Prop :=
  exists target noise,
    (6.8 <= target /\ target <= 7.6) /\
    (-0.03 <= noise /\ noise <= 0.03) /\
    next = roundTo (clamp (approach prev target 0.08 + noise) 5.0 9.5) 2.

(** The turbidity rule of a tick as the code has it: [r] is the draw that
    decides the spike; the spike is added to the value already clamped to
    [0, 20], and that sum is clamped to [0, 50]. *)
Definition turbidity_rule (prev next : Q) : Prop :=
  exists noise r,
    (-0.12 <= noise /\ noise <= 0.28) /\ (0 <= r /\ r < 1) /\
    let base := clamp (prev + noise) 0 20 in
    (r < 0.015 /\
     exists spike, (2 <= spike /\ spike <= 6) /\
                   next = roundTo (clamp (base + spike) 0 50) 2)
    \/ (0.015 <= r /\ next = roundTo base 2).

(** What a tick stores, channel by channel. *)
Definition generated (last s : Sample) : Prop :=
  pH_rule (pH last) (pH s) /\
  turbidity_rule (turbidity last) (turbidity s) /\
  (15 <= temperature s /\ temperature s <= 45) /\
  (0 <= waterLevelPercent s /\ waterLevelPercent s <= 100).

(** The last entry a tick reads: [prevHist[prevHist.length - 1] || current]. *)
Definition lastOr (captured : Sample) (prevHist : list Sample) : Sample :=
  match lastOf prevHist with Some s => s | None => captured end.

(** The refill entry made from [last]. *)
Definition refillOf (last : Sample) (x : Q) (now : Z) : Sample :=
  mkSample now (pH last) (turbidity last) (temperature last) (clamp x 0 100).

(** The state after one event. *)
Definition handled (G : Sample -> Sample -> Prop) (R : Q -> Prop)
  (captured : Sample) (app : App) (e : Event) (r : option App) : Prop :=
  match e with
  | Timer =>
      exists nextPoint,
        G (lastOr captured (history app)) nextPoint /\
        r = Some (mkApp (modeScientific app)
                    (sliceLast HISTORY_POINTS (history app ++ [nextPoint]))
                    nextPoint)
  | ForceRefillClick =>
      exists x now, R x /\
        r = match lastOf (history app) with
            | None => None
            | Some last =>
                Some (mkApp (modeScientific app)
                        (sliceLast HISTORY_POINTS
                           (history app ++ [refillOf last x now]))
                        (current app))
            end
  | ToggleModeClick =>
      r = Some (mkApp (negb (modeScientific app)) (history app) (current app))
  end.

(** The samples of the seeding loop. *)
Definition seeded (s : Sample) : Prop :=
  (5.5 <= pH s /\ pH s <= 9.5) /\
  (0 <= turbidity s /\ turbidity s <= 12) /\
  (18 <= temperature s /\ temperature s <= 42) /\
  (0 <= waterLevelPercent s /\ waterLevelPercent s <= 100).

(** A full history whose samples, like the current one, satisfy [P]. *)
Definition app_inv (P : Sample -> Prop) (app : App) : Prop :=
  List.length (history app) = HISTORY_POINTS /\
  Forall P (history app) /\ P (current app).


(** What [rand(82, 100)] returns. *)
Definition refillDraw (x : Q) : Prop := 82 <= x /\ x <= 100.

(** Nothing required of a sample, of a generated sample, of a draw. *)
Definition anySample (s : Sample) : Prop := True.
Definition anyStep (last s : Sample) : Prop := True.
Definition anyDraw (x : Q) : Prop := True.

(** A previous sample at the ceiling of the first clamp, and a world whose
    fourth draw (0.01) triggers the spike. *)
Definition atCeiling : Sample := mkSample 0 7 20 28 50.

(** The thirty-nine entries behind the oldest one of a full history. *)
Definition fullHistory : list Sample := repeat (initialCurrent 0) 39.

(** A state whose [current] reports a low tank. *)
Definition lowTank : App :=
  mkApp false [mkSample 0 7 1 20 10] (mkSample 0 7 1 20 10).

(** The same readings, as numbers (the timestamps may differ). *)
Definition sameReadings (a b : Sample) : Prop :=
  pH a == pH b /\ turbidity a == turbidity b /\
  temperature a == temperature b /\
  waterLevelPercent a == waterLevelPercent b.

(** The same thresholds, as numbers. *)
Definition sameThresholds (a b : Thresholds) : Prop :=
  pH_min a == pH_min b /\ pH_max a == pH_max b /\
  turbidity_max a == turbidity_max b /\
  temperature_max a == temperature_max b /\
  waterLevelPercent_min a == waterLevelPercent_min b.


(** The sample of the example: pH 9.0, the rest fine. *)
Definition alkaline : Sample := mkSample 0 9.0 1 20 50.

(** The point of the value [v] at index [i], when nothing divides by zero. *)
Definition pointOf (len : nat) (min range w h : Q) (v : Q) (i : nat) : Q * Q :=
  (ofNat i / orOne (ofNat len - 1) * w, h - (v - min) / range * h).

(** The guarded range of the values [v0 :: vs]. *)
Definition rangeOf (v0 : Q) (vs : list Q) : Q :=
  orOne (fold_left Qmax vs v0 - fold_left Qmin vs v0).

(** Three equal values. *)
Definition flatValues : list Q := [7.4; 7.4; 7.4].

(** The clock does not run backwards and has reached [t]. *)
Definition notBefore (t : Z) (w : World) : Prop :=
  clock_ok w /\ (t <= clock w 0)%Z.

(** The timestamps never decrease along the history. *)
Definition chronological (h : list Sample) : Prop :=
  StronglySorted Z.le (map timestamp h).

(** No entry is later than [t]. *)
Definition upTo (t : Z) (h : list Sample) : Prop :=
  Forall (fun s => (timestamp s <= t)%Z) h.

(** The history with its clock bound. *)
Definition timely (t : Z) (h : list Sample) : Prop :=
  chronological h /\ upTo t h.

(** The temperature rule of a tick. *)
Definition temperature_rule (prev next : Q) : Prop :=
  exists target noise,
    (26 <= target /\ target <= 31) /\
    (-0.05 <= noise /\ noise <= 0.12) /\
    next = roundTo (clamp (approach prev target 0.03 + noise) 15 45) 1.

(** The water level rule of a tick: [r] is the draw that decides the
    refill jump, [gain] the small increase (0 when there is none). *)
Definition level_rule (prev next : Q) : Prop :=
  exists drop gain r,
    (0.05 <= drop /\ drop <= 0.5) /\ (0 <= gain /\ gain <= 0.3) /\
    (0 <= r /\ r < 1) /\
    ((r < 0.02 /\
      exists x, (78 <= x /\ x <= 100) /\ next = roundTo (clamp (clamp x 0 100) 0 100) 1)
     \/ (0.02 <= r /\ next = roundTo (clamp (prev - drop + gain) 0 100) 1)).

(** [current] is the last entry of the history. *)
Definition inStep (app : App) : Prop :=
  lastOf (history app) = Some (current app).

(** No event of the list is a Force Refill click. *)
Definition noRefill (es : list Event) : Prop :=
  Forall (fun e => e <> ForceRefillClick) es.

(** The temperature is at or below the threshold. *)
Definition cool (s : Sample) : Prop := temperature s <= 35.

(** Every held sample is cool, and there is one. *)
Definition allCool (app : App) : Prop :=
  (0 < List.length (history app))%nat /\
  Forall cool (history app) /\ cool (current app).

(** Consecutive timestamps are at least one interval apart. *)
Definition spaced (h : list Sample) : Prop :=
  StronglySorted (fun a b => (a + INTERVAL_MS <= b)%Z) (map timestamp h).

(** The number of clicks on the view button. *)
Fixpoint toggles (es : list Event) : nat :=
  match es with
  | [] => 0
  | ToggleModeClick :: es' => S (toggles es')
  | _ :: es' => toggles es'
  end.

(** A world whose draws are all one half and whose clock stands still. *)
Definition stillWorld : World := replay [] 0.5 [] 0.

(** A state holding the initial sample alone. *)
Definition oneSample : App :=
  mkApp false [initialCurrent 0] (initialCurrent 0).

(** Three rising values, and the points drawn for them in the small box. *)
Definition risingValues : list Q := [1; 2; 3].
Definition risingPoints : list (Q * Q) :=
  match sparkPoints risingValues 140 36 with Some pts => pts | None => [] end.

(* ================================================================= *)
(** * Properties *)

(** ** Numbers *)

Lemma clamp_bounds v a b : a <= b -> a <= clamp v a b /\ clamp v a b <= b.
Proof.
  intros H. unfold clamp. split.
  - apply Q.le_max_l.
  - apply Q.max_lub; [exact H | apply Q.le_min_l].
Qed.

Lemma Qlt_bool_iff x y : Qlt_bool x y = true <-> x < y.
Proof.
  unfold Qlt_bool. rewrite negb_true_iff.
  split; intros H.
  - apply Qnot_le_lt. intros Hle. apply Qle_bool_iff in Hle. congruence.
  - destruct (Qle_bool y x) eqn:E; [|reflexivity].
    apply Qle_bool_iff in E. lra.
Qed.

Lemma Qlt_bool_false x y : Qlt_bool x y = false <-> y <= x.
Proof.
  unfold Qlt_bool. rewrite negb_false_iff. apply Qle_bool_iff.
Qed.

Lemma Qle_bool_false x y : Qle_bool x y = false <-> y < x.
Proof.
  rewrite <- Qlt_bool_iff. unfold Qlt_bool. apply iff_sym, negb_true_iff.
Qed.

Lemma Qlt_bool_comp x x' y y' :
  x == x' -> y == y' -> Qlt_bool x y = Qlt_bool x' y'.
Proof. intros Hx Hy. unfold Qlt_bool. now rewrite Hx, Hy. Qed.

Lemma pow10_pos d : (0 < 10 ^ Z.of_nat d)%Z.
Proof. apply Z.pow_pos_nonneg; lia. Qed.

Lemma fixedDigits_comp v v' d : v == v' -> fixedDigits v d = fixedDigits v' d.
Proof.
  intros E. unfold fixedDigits. apply Qfloor_comp. now rewrite E.
Qed.

Lemma toFixed_comp v v' d : v == v' -> toFixed v d = toFixed v' d.
Proof.
  intros E. unfold toFixed.
  rewrite (fixedDigits_comp v v' d E).
  rewrite (Qlt_bool_comp v v' 0 0 E (Qeq_refl 0)). reflexivity.
Qed.

(** Rounding a non-negative number to [d] places stays between any two
    bounds that have at most [d] places themselves. *)
Lemma fixedDigits_bounds v d (a b : Z) :
  0 <= v ->
  inject_Z a <= v * inject_Z (10 ^ Z.of_nat d) ->
  v * inject_Z (10 ^ Z.of_nat d) <= inject_Z b ->
  (a <= fixedDigits v d <= b)%Z.
Proof.
  intros Hv Ha Hb. unfold fixedDigits.
  assert (Habs : Qabs v * inject_Z (10 ^ Z.of_nat d) + 0.5
                 == v * inject_Z (10 ^ Z.of_nat d) + 0.5).
  { rewrite (Qabs_pos v Hv). reflexivity. }
  rewrite (Qfloor_comp _ _ Habs). clear Habs.
  set (t := v * inject_Z (10 ^ Z.of_nat d)) in *. clearbody t.
  split.
  - rewrite <- (Qfloor_Z a). apply Qfloor_resp_le. lra.
  - assert (H1 := Qfloor_le (t + 0.5)).
    assert (H2 : inject_Z (Qfloor (t + 0.5)) < inject_Z (b + 1)).
    { rewrite inject_Z_plus. change (inject_Z 1) with 1. lra. }
    rewrite <- Zlt_Qlt in H2. lia.
Qed.

Lemma roundTo_bounds v d (a b : Z) :
  0 <= v ->
  inject_Z a <= v * inject_Z (10 ^ Z.of_nat d) ->
  v * inject_Z (10 ^ Z.of_nat d) <= inject_Z b ->
  inject_Z a <= roundTo v d * inject_Z (10 ^ Z.of_nat d) /\
  roundTo v d * inject_Z (10 ^ Z.of_nat d) <= inject_Z b.
Proof.
  intros Hv Ha Hb.
  destruct (fixedDigits_bounds v d a b Hv Ha Hb) as [H1 H2].
  assert (HP : 0 < inject_Z (10 ^ Z.of_nat d)).
  { change 0 with (inject_Z 0). rewrite <- Zlt_Qlt. apply pow10_pos. }
  unfold roundTo.
  assert (Hs : Qlt_bool v 0 = false) by (apply Qlt_bool_false; exact Hv).
  rewrite Hs.
  assert (E : inject_Z (fixedDigits v d) / inject_Z (10 ^ Z.of_nat d)
              * inject_Z (10 ^ Z.of_nat d) == inject_Z (fixedDigits v d)).
  { field. lra. }
  rewrite Zle_Qle in H1, H2.
  set (R := inject_Z (fixedDigits v d) / inject_Z (10 ^ Z.of_nat d)
            * inject_Z (10 ^ Z.of_nat d)) in *.
  clearbody R. lra.
Qed.


Lemma roundTo1_bounds v (a b : Z) :
  0 <= v -> inject_Z a <= v * 10 -> v * 10 <= inject_Z b ->
  inject_Z a <= roundTo v 1 * 10 /\ roundTo v 1 * 10 <= inject_Z b.
Proof. exact (roundTo_bounds v 1 a b). Qed.

Ltac round_bounds lem v lo hi :=
  let A := fresh "A" in
  let B := fresh "B" in
  destruct (lem v lo hi) as [A B];
  [ lra
  | change (inject_Z lo) with (lo # 1); lra
  | change (inject_Z hi) with (hi # 1); lra
  | change (inject_Z lo) with (lo # 1) in A;
    change (inject_Z hi) with (hi # 1) in B ].

Lemma orOne_nonzero x : Qeq_bool (orOne x) 0 = false.
Proof.
  unfold orOne. destruct (Qeq_bool x 0) eqn:E; [reflexivity | exact E].
Qed.

Lemma jsdiv_orOne a x : jsdiv a (orOne x) = Some (a / orOne x).
Proof. unfold jsdiv. now rewrite orOne_nonzero. Qed.

Example toFixed_9 : toFixed 9 2 = "9.00"%string.
Proof. reflexivity. Qed.

Example toFixed_negative : toFixed (-0.001) 2 = "-0.00"%string.
Proof. reflexivity. Qed.

Example toFixed_tie : toFixed 0.125 2 = "0.13"%string /\ roundTo 0.125 2 == 0.13.
Proof. split; reflexivity. Qed.

Example numToString_literals :
  map numToString [6.5; 8.5; 5; 20; 19.9; -0.25]
  = ["6.5"; "8.5"; "5"; "20"; "19.9"; "-0.25"]%string.
Proof. vm_compute. reflexivity. Qed.

(** ** Lists *)

Lemma sliceLast_length {A} n (l : list A) :
  List.length (sliceLast n l) = Nat.min n (List.length l).
Proof. unfold sliceLast. rewrite length_skipn. lia. Qed.

Lemma sliceLast_push {A} n (l : list A) x :
  (0 < n)%nat ->
  sliceLast n (l ++ [x]) = skipn (S (List.length l) - n) l ++ [x].
Proof.
  intros Hn. unfold sliceLast.
  rewrite length_app, skipn_app. cbn [List.length].
  replace (List.length l + 1 - n)%nat with (S (List.length l) - n)%nat by lia.
  replace (S (List.length l) - n - List.length l)%nat with 0%nat by lia.
  reflexivity.
Qed.

Lemma sliceLast_push_full {A} n (a : A) l x :
  List.length (a :: l) = n ->
  sliceLast n ((a :: l) ++ [x]) = l ++ [x].
Proof.
  intros H. rewrite sliceLast_push by (cbn in H; lia).
  rewrite H. replace (S n - n)%nat with 1%nat by lia. reflexivity.
Qed.

Lemma lastOf_push {A} (l : list A) x : lastOf (l ++ [x]) = Some x.
Proof.
  unfold lastOf. rewrite length_app. cbn [List.length].
  replace (List.length l + 1 - 1)%nat with (List.length l) by lia.
  rewrite nth_error_app2 by lia. rewrite Nat.sub_diag. reflexivity.
Qed.

Lemma lastOf_cases {A} (l : list A) :
  (l = [] /\ lastOf l = None) \/
  (exists l' x, l = l' ++ [x] /\ lastOf l = Some x).
Proof.
  destruct l as [|a l0] using rev_ind.
  - left. split; reflexivity.
  - right. exists l0, a. split; [reflexivity | apply lastOf_push].
Qed.

Lemma lastOf_sliceLast_push {A} n (l : list A) x :
  (0 < n)%nat -> lastOf (sliceLast n (l ++ [x])) = Some x.
Proof. intros Hn. rewrite sliceLast_push by exact Hn. apply lastOf_push. Qed.

Lemma Forall_skipn {A} (P : A -> Prop) n (l : list A) :
  Forall P l -> Forall P (skipn n l).
Proof.
  revert l. induction n as [|n IH]; intros l H; [exact H|].
  destruct H as [|a l Ha Hl]; [constructor | apply IH, Hl].
Qed.

Lemma Forall_sliceLast_push {A} (P : A -> Prop) n (l : list A) x :
  Forall P l -> P x -> Forall P (sliceLast n (l ++ [x])).
Proof.
  intros Hl Hx. unfold sliceLast. apply Forall_skipn.
  apply Forall_app. split; [exact Hl | constructor; [exact Hx | constructor]].
Qed.

(** ** Reasoning about code that reads the world *)

Section WorldInvariant.

Variable I : World -> Prop.
Hypothesis I_dateNow : forall w, I w -> I (snd (dateNow w)).

Lemma est_ret {A} (a : A) (P : A -> Prop) : P a -> establishes I (ret a) P.
Proof. intros H w Hw. split; assumption. Qed.

Lemma est_bind {A B} (c : IO A) (k : A -> IO B) (P : A -> Prop) (Q : B -> Prop) :
  establishes I c P ->
  (forall a, P a -> establishes I (k a) Q) ->
  establishes I (bind c k) Q.
Proof.
  intros Hc Hk w Hw. unfold bind.
  destruct (Hc w Hw) as [Ha Hw']. destruct (c w) as [a w'].
  exact (Hk a Ha w' Hw').
Qed.

Lemma est_weaken {A} (c : IO A) (P Q : A -> Prop) :
  establishes I c P -> (forall a, P a -> Q a) -> establishes I c Q.
Proof.
  intros Hc HPQ w Hw. destruct (Hc w Hw) as [Ha Hw']. split; auto.
Qed.

Lemma est_dateNow : establishes I dateNow (fun _ => True).
Proof. intros w Hw. split; [exact Logic.I | apply I_dateNow, Hw]. Qed.

End WorldInvariant.

Lemma anyWorld_dateNow w : anyWorld w -> anyWorld (snd (dateNow w)).
Proof. intros _. exact I. Qed.

Lemma rng_ok_random w : rng_ok w -> rng_ok (snd (random w)).
Proof. intros Hw k. exact (Hw (S k)). Qed.

Lemma rng_ok_dateNow w : rng_ok w -> rng_ok (snd (dateNow w)).
Proof. intros Hw. exact Hw. Qed.

Lemma post_ret {A} (a : A) (P : A -> Prop) : P a -> post (ret a) P.
Proof. apply est_ret. Qed.

Lemma post_bind {A B} (c : IO A) (k : A -> IO B) (P : A -> Prop) (Q : B -> Prop) :
  post c P -> (forall a, P a -> post (k a) Q) -> post (bind c k) Q.
Proof. apply est_bind. Qed.

Lemma post_random : post random (fun u => 0 <= u /\ u < 1).
Proof.
  intros w Hw. split; [exact (Hw 0%nat) | apply rng_ok_random, Hw].
Qed.

Lemma post_dateNow : post dateNow (fun _ => True).
Proof. apply est_dateNow, rng_ok_dateNow. Qed.

(** [rand(a, b)] is between [a] and [b]. *)
Lemma post_rand a b : a <= b -> post (rand a b) (fun x => a <= x /\ x <= b).
Proof.
  intros Hab. unfold rand.
  apply post_bind with (P := fun u => 0 <= u /\ u < 1); [apply post_random|].
  intros u [H0 H1]. apply post_ret.
  assert (Hd : 0 <= b - a) by lra.
  assert (H2 : 0 <= u * (b - a)) by (apply Qmult_le_0_compat; assumption).
  assert (H3 : 0 <= (1 - u) * (b - a)) by (apply Qmult_le_0_compat; lra).
  split; [lra|].
  setoid_replace ((1 - u) * (b - a)) with ((b - a) - u * (b - a)) in H3 by ring.
  lra.
Qed.

Lemma post_run {A} (c : IO A) (P : A -> Prop) :
  post c P -> forall w, rng_ok w -> P (fst (c w)).
Proof. intros H w Hw. exact (proj1 (H w Hw)). Qed.

(** One step of a [post] proof: a draw, or a reading of the clock, named
    [x], with what is known of it as [H]. *)
Tactic Notation "draw" ident(x) ident(H) :=
  eapply post_bind;
  [ first [ apply post_rand; lra | apply post_random | apply post_dateNow ]
  | cbv beta; intros x H ].

Lemma replay_rng_ok us u ts t :
  forallb unitb us = true -> unitb u = true -> rng_ok (replay us u ts t).
Proof.
  intros Hus Hu k. unfold replay. cbn [rng].
  assert (H : unitb (nth k us u) = true).
  { destruct (nth_in_or_default k us u) as [Hin | Hd].
    - rewrite forallb_forall in Hus. apply Hus, Hin.
    - rewrite Hd. exact Hu. }
  unfold unitb in H. apply andb_true_iff in H. destruct H as [H1 H2].
  split; [apply Qle_bool_iff, H1 | apply Qlt_bool_iff, H2].
Qed.

(** ** The signal generator *)



Lemma nextSample_spec last : post (nextSample last) (generated last).
Proof.
  unfold nextSample.
  draw target Htarget. draw noise Hnoise. draw dt Hdt. draw r1 Hr1.
  apply post_bind with
    (P := fun t =>
            (r1 < 0.015 /\
             exists spike, (2 <= spike /\ spike <= 6) /\
               t = clamp (clamp (turbidity last + dt) 0 20 + spike) 0 50)
            \/ (0.015 <= r1 /\ t = clamp (turbidity last + dt) 0 20)).
  { destruct (Qlt_bool r1 0.015) eqn:E.
    - apply Qlt_bool_iff in E. draw spike Hspike. apply post_ret.
      left. split; [exact E|]. exists spike. split; [assumption | reflexivity].
    - apply Qlt_bool_false in E. apply post_ret.
      right. split; [exact E | reflexivity]. }
  intros nextTurb HnextTurb.
  draw ttarget Httarget. draw tnoise Htnoise. draw drop Hdrop. draw r2 Hr2.
  apply post_bind with (P := fun _ : Q => True).
  { destruct (Qlt_bool r2 0.06); [draw up Hup|]; apply post_ret; exact I. }
  intros nextLevel _. draw r3 Hr3.
  apply post_bind with (P := fun _ : Q => True).
  { destruct (Qlt_bool r3 0.02); [draw x Hx|]; apply post_ret; exact I. }
  intros nextLevel' _. draw now Hnow. apply post_ret.
  unfold generated. cbn [pH turbidity temperature waterLevelPercent].
  split; [|split; [|split]].
  - exists target, noise. repeat split; tauto.
  - exists dt, r1. split; [assumption|]. split; [assumption|].
    cbv zeta. destruct HnextTurb as [[Hr [spike [Hs Et]]] | [Hr Et]].
    + left. split; [exact Hr|]. exists spike. split; [exact Hs|].
      rewrite Et. reflexivity.
    + right. split; [exact Hr|]. rewrite Et. reflexivity.
  - destruct (clamp_bounds (approach (temperature last) ttarget 0.03 + tnoise) 15 45)
      as [L U]; [lra|].
    set (v := clamp _ 15 45) in *. clearbody v.
    round_bounds roundTo1_bounds v 150%Z 450%Z. lra.
  - destruct (clamp_bounds nextLevel' 0 100) as [L U]; [lra|].
    set (v := clamp _ 0 100) in *. clearbody v.
    round_bounds roundTo1_bounds v 0%Z 1000%Z. lra.
Qed.




Section Updaters.

Variable I : World -> Prop.
Hypothesis I_dateNow : forall w, I w -> I (snd (dateNow w)).

(** What is known of a generated sample, and of the refill draw. *)
Variable G : Sample -> Sample -> Prop.
Variable R : Q -> Prop.
Hypothesis G_nextSample : forall last, establishes I (nextSample last) (G last).
Hypothesis R_rand : establishes I (rand 82 100) R.

(** The new history of a tick is the old one with the new sample pushed
    and cut to the last forty; the new sample is generated from the last
    entry. *)
Lemma tick_est captured prevHist :
  establishes I (tick captured prevHist)
    (fun r =>
       fst r = sliceLast HISTORY_POINTS (prevHist ++ [snd r]) /\
       G (lastOr captured prevHist) (snd r)).
Proof.
  unfold tick.
  eapply est_bind; [apply G_nextSample|].
  intros nextPoint Hgen. apply est_ret. cbn [fst snd].
  split; [reflexivity | exact Hgen].
Qed.

Lemma forceRefill_est prev :
  establishes I (forceRefill prev)
    (fun r =>
       exists x now, R x /\
         r = match lastOf prev with
             | None => Fragment (clamp x 0 100) now
             | Some last =>
                 Samples (sliceLast HISTORY_POINTS (prev ++ [refillOf last x now]))
             end).
Proof.
  unfold forceRefill.
  eapply est_bind; [apply R_rand|]. intros x Hx.
  eapply est_bind; [apply est_dateNow, I_dateNow|]. intros now _.
  destruct (lastOf prev) as [last|]; apply est_ret; exists x, now;
    (split; [exact Hx | reflexivity]).
Qed.

Lemma handle_est captured app e :
  establishes I (handle captured app e) (handled G R captured app e).
Proof.
  destruct e; unfold handle, handled.
  - eapply est_bind; [apply tick_est|].
    intros [newHist nextPoint] [Eh Hg]. cbn [fst snd] in *. apply est_ret.
    exists nextPoint. split; [exact Hg | now rewrite Eh].
  - eapply est_bind; [apply forceRefill_est|].
    intros r [x [now [Hx Er]]]. apply est_ret. exists x, now.
    split; [exact Hx|]. rewrite Er. now destruct (lastOf (history app)).
  - now apply est_ret.
Qed.

(** An invariant of the state that every event keeps, and with which no
    event fails, holds after any sequence of events. *)
Lemma run_est (Inv : App -> Prop) captured :
  (forall app e r, Inv app -> handled G R captured app e r ->
                   exists app', r = Some app' /\ Inv app') ->
  forall es app, Inv app ->
    establishes I (run captured app es)
      (fun r => exists app', r = Some app' /\ Inv app').
Proof.
  intros Hstep es. induction es as [|e es IH]; intros app Hinv; cbn [run].
  - apply est_ret. now exists app.
  - eapply est_bind; [apply handle_est|].
    intros r Hr. destruct (Hstep app e r Hinv Hr) as [app' [-> Hinv']].
    now apply IH.
Qed.

End Updaters.

Lemma seedStep_spec prev i : post (seedStep prev i) seeded.
Proof.
  unfold seedStep, jitter.
  draw now Hnow.
  eapply post_bind with (P := fun _ : Q => True).
  { draw m Hm. draw s Hs. now apply post_ret. }
  intros p _.
  eapply post_bind with (P := fun _ : Q => True).
  { draw m Hm. draw s Hs. now apply post_ret. }
  intros tu _.
  eapply post_bind with (P := fun _ : Q => True).
  { draw m Hm. draw s Hs. now apply post_ret. }
  intros te _.
  draw dl Hdl. draw r Hr.
  eapply post_bind with (P := fun l : Q => 0 <= l /\ l <= 100).
  { destruct (Qlt_bool r 0.03); [draw x Hx|]; apply post_ret;
      apply clamp_bounds; lra. }
  intros level' Hlevel. apply post_ret.
  unfold seeded. cbn [pH turbidity temperature waterLevelPercent].
  repeat split; try (apply clamp_bounds; lra); tauto.
Qed.

(** ** The component *)

Lemma lastOf_In {A} (l : list A) x : lastOf l = Some x -> In x l.
Proof. unfold lastOf. apply nth_error_In. Qed.

Lemma lastOf_nonempty {A} (l : list A) :
  (0 < List.length l)%nat -> exists x, lastOf l = Some x.
Proof.
  intros H. destruct (lastOf_cases l) as [[-> _] | [l' [x [_ E]]]].
  - cbn in H. lia.
  - now exists x.
Qed.

Lemma app_inv_weaken (P Q : Sample -> Prop) app :
  (forall s, P s -> Q s) -> app_inv P app -> app_inv Q app.
Proof.
  intros HPQ [Hlen [Hall Hcur]]. split; [exact Hlen|].
  split; [|now apply HPQ]. eapply Forall_impl; [exact HPQ | exact Hall].
Qed.

Section Session.

Variable I : World -> Prop.
Hypothesis I_dateNow : forall w, I w -> I (snd (dateNow w)).

(** What is known of a generated sample [G], of the refill draw [R] and of
    a seeded sample [S]; [P] follows for every sample the component holds. *)
Variable G : Sample -> Sample -> Prop.
Variable R : Q -> Prop.
Variable S : Sample -> Prop.
Variable P : Sample -> Prop.
Hypothesis G_nextSample : forall last, establishes I (nextSample last) (G last).
Hypothesis R_rand : establishes I (rand 82 100) R.
Hypothesis S_seedStep : forall prev i, establishes I (seedStep prev i) S.
Hypothesis P_generated : forall last s, G last s -> P s.
Hypothesis P_seeded : forall s, S s -> P s.
Hypothesis P_refill : forall last x now, P last -> R x -> P (refillOf last x now).

Lemma seedLoop_est n : forall i prev h,
  Forall S h ->
  establishes I (seedLoop n i prev h)
    (fun r => List.length r = (List.length h + n)%nat /\ Forall S r).
Proof.
  induction n as [|n IH]; intros i prev h Hh; cbn [seedLoop].
  - apply est_ret. split; [lia | exact Hh].
  - eapply est_bind; [apply S_seedStep|].
    intros prev' Hprev'. eapply est_weaken.
    + apply IH. apply Forall_app. split; [exact Hh|].
      constructor; [exact Hprev' | constructor].
    + cbv beta. intros r [Hlen Hr]. split; [|exact Hr].
      rewrite Hlen, length_app. cbn [List.length]. lia.
Qed.

(** The seeding loop pushes exactly forty samples. *)
Lemma seed_est current :
  establishes I (seed current)
    (fun h => List.length h = HISTORY_POINTS /\ Forall S h).
Proof.
  unfold seed. eapply est_weaken; [apply seedLoop_est; constructor|].
  cbv beta. intros r [Hlen Hr]. split; [exact Hlen | exact Hr].
Qed.

Lemma mount_est app : establishes I (mount app) (app_inv S).
Proof.
  unfold mount. eapply est_bind; [apply seed_est|].
  intros h [Hlen Hall]. apply est_ret.
  unfold app_inv. cbn [history current].
  split; [exact Hlen|]. split; [exact Hall|].
  destruct (lastOf_nonempty h) as [s Hs].
  { rewrite Hlen. unfold HISTORY_POINTS. lia. }
  rewrite Hs. rewrite Forall_forall in Hall. apply Hall, lastOf_In, Hs.
Qed.

(** On a full history no event fails, and the history stays full. *)
Lemma handled_inv captured app e r :
  app_inv P app -> handled G R captured app e r ->
  exists app', r = Some app' /\ app_inv P app'.
Proof.
  intros [Hlen [Hall Hcur]] Hr.
  assert (Hfull : forall s, List.length
                    (sliceLast HISTORY_POINTS (history app ++ [s]))
                  = HISTORY_POINTS).
  { intros s. rewrite sliceLast_length, length_app, Hlen.
    unfold HISTORY_POINTS. cbn [List.length]. lia. }
  destruct e; cbn [handled] in Hr.
  - destruct Hr as [nextPoint [Hg ->]]. eexists. split; [reflexivity|].
    assert (HP : P nextPoint) by (eapply P_generated, Hg).
    unfold app_inv. cbn [history current].
    split; [apply Hfull|]. split; [|exact HP].
    now apply Forall_sliceLast_push.
  - destruct Hr as [x [now [Hx ->]]].
    destruct (lastOf_nonempty (history app)) as [last Hlast].
    { rewrite Hlen. unfold HISTORY_POINTS. lia. }
    rewrite Hlast. eexists. split; [reflexivity|].
    unfold app_inv. cbn [history current].
    split; [apply Hfull|]. split; [|exact Hcur].
    apply Forall_sliceLast_push; [exact Hall|].
    apply P_refill; [|exact Hx].
    rewrite Forall_forall in Hall. apply Hall, lastOf_In, Hlast.
  - subst r. eexists. split; [reflexivity|].
    unfold app_inv. cbn [history current]. now repeat split.
Qed.

(** A session never leaves the model: after the mount effect the history
    is full, and it stays full. *)
Lemma session_est es :
  establishes I (session es)
    (fun r => exists app, r = Some app /\ app_inv P app).
Proof.
  unfold session.
  eapply est_bind; [apply est_dateNow, I_dateNow|]. intros t0 _.
  eapply est_bind; [apply mount_est|]. intros app1 Hinv.
  apply (run_est I I_dateNow G R G_nextSample R_rand).
  - intros app e r. apply handled_inv.
  - revert Hinv. apply app_inv_weaken, P_seeded.
Qed.

End Session.



Lemma refillDraw_clamp x :
  refillDraw x -> 82 <= clamp x 0 100 /\ clamp x 0 100 <= 100.
Proof.
  intros [H1 H2]. unfold clamp.
  rewrite (Q.min_r 100 x) by exact H2. rewrite Q.max_r by lra. lra.
Qed.


Lemma post_refill_draw : post (rand 82 100) refillDraw.
Proof. apply post_rand. lra. Qed.


Lemma always_trivial {A} (c : IO A) : always c (fun _ => True).
Proof. intros w _. split; exact I. Qed.

Lemma handle_shape captured app e w :
  handled anyStep anyDraw captured app e (fst (handle captured app e w)).
Proof.
  refine (proj1 (handle_est anyWorld anyWorld_dateNow anyStep anyDraw
                   _ _ captured app e w I)).
  - intros last. apply always_trivial.
  - apply always_trivial.
Qed.

Lemma forceRefill_shape prev w :
  exists x now,
    fst (forceRefill prev w) =
    match lastOf prev with
    | None => Fragment (clamp x 0 100) now
    | Some last =>
        Samples (sliceLast HISTORY_POINTS (prev ++ [refillOf last x now]))
    end.
Proof.
  destruct (proj1 (forceRefill_est anyWorld anyWorld_dateNow anyDraw
                     (always_trivial _) prev w I)) as [x [now [_ E]]].
  now exists x, now.
Qed.

(** Whatever the world: a session ends in a state with a full history. *)
Lemma session_full es w :
  exists app, fst (session es w) = Some app /\
              List.length (history app) = HISTORY_POINTS.
Proof.
  destruct (proj1 (session_est anyWorld anyWorld_dateNow anyStep anyDraw
                     anySample anySample
                     (fun _ => always_trivial _) (always_trivial _)
                     (fun _ _ => always_trivial _)
                     (fun _ _ _ => I) (fun _ _ => I) (fun _ _ _ _ _ => I)
                     es w I)) as [app [E [Hlen _]]].
  now exists app.
Qed.

(** The sample a tick stores is the one [nextSample] makes from the last
    entry, and it becomes the last entry of the new history. *)
Lemma tick_nextSample captured prevHist w :
  let r := fst (tick captured prevHist w) in
  snd r = fst (nextSample (lastOr captured prevHist) w) /\
  fst r = sliceLast HISTORY_POINTS (prevHist ++ [snd r]) /\
  lastOf (fst r) = Some (snd r).
Proof.
  unfold tick, bind, lastOr, ret.
  destruct (nextSample _ w) as [nextPoint w']. cbn [fst snd].
  split; [reflexivity|]. split; [reflexivity|].
  apply lastOf_sliceLast_push. unfold HISTORY_POINTS. lia.
Qed.

(** ** The clock: timestamps along the history *)

Lemma triple_ret {A} (a : A) Pre (Post : A -> World -> Prop) :
  (forall w, Pre w -> Post a w) -> triple Pre (ret a) Post.
Proof. intros H w Hw. now apply H. Qed.

Lemma triple_bind {A B} (c : IO A) (k : A -> IO B) Pre Mid Post :
  triple Pre c Mid -> (forall a, triple (Mid a) (k a) Post) ->
  triple Pre (bind c k) Post.
Proof.
  intros Hc Hk w Hw. unfold bind. specialize (Hc w Hw).
  destruct (c w) as [a w']. exact (Hk a w' Hc).
Qed.

Lemma clock_random t : triple (notBefore t) random (fun _ => notBefore t).
Proof. intros w Hw. exact Hw. Qed.

Lemma clock_rand t a b : triple (notBefore t) (rand a b) (fun _ => notBefore t).
Proof.
  unfold rand. eapply triple_bind; [apply clock_random|].
  intros u. now apply triple_ret.
Qed.

(** A reading of the clock is not before [t], and the clock has then
    reached that reading. *)
Lemma clock_dateNow t :
  triple (notBefore t) dateNow (fun now w => (t <= now)%Z /\ notBefore now w).
Proof.
  intros w [Hok Ht]. cbn. split; [exact Ht|]. split.
  - intros k. cbn. apply Hok.
  - cbn. apply Hok.
Qed.

Lemma clock_branch t (b : bool) (c1 c2 : IO Q) :
  triple (notBefore t) c1 (fun _ => notBefore t) ->
  triple (notBefore t) c2 (fun _ => notBefore t) ->
  triple (notBefore t) (if b then c1 else c2) (fun _ => notBefore t).
Proof. now destruct b. Qed.

Ltac pass :=
  eapply triple_bind;
  [ first [ apply clock_rand | apply clock_random ] | cbv beta; intros ? ].

(** The timestamp of a generated sample is the one reading of the clock
    the tick makes. *)
Lemma clock_nextSample t last :
  triple (notBefore t) (nextSample last)
    (fun s w => (t <= timestamp s)%Z /\ notBefore (timestamp s) w).
Proof.
  unfold nextSample.
  pass. pass. pass. pass.
  eapply triple_bind.
  { apply clock_branch; [pass|]; now apply triple_ret. }
  cbv beta. intros nextTurb.
  pass. pass. pass. pass.
  eapply triple_bind.
  { apply clock_branch; [pass|]; now apply triple_ret. }
  cbv beta. intros nextLevel. pass.
  eapply triple_bind.
  { apply clock_branch; [pass|]; now apply triple_ret. }
  cbv beta. intros nextLevel'.
  eapply triple_bind; [apply clock_dateNow|]. cbv beta. intros now.
  apply triple_ret. cbn [timestamp]. tauto.
Qed.

Lemma sorted_push {A} (R : A -> A -> Prop) l b :
  StronglySorted R l -> Forall (fun a => R a b) l -> StronglySorted R (l ++ [b]).
Proof.
  induction l as [|a l IH]; intros Hs Hb; cbn.
  - repeat constructor.
  - inversion Hs as [|a' l' Hl Ha]; subst.
    inversion Hb as [|a' l' Hab Hlb]; subst.
    constructor; [now apply IH|].
    apply Forall_app. split; [exact Ha | now constructor].
Qed.

Lemma sorted_skipn {A} (R : A -> A -> Prop) n : forall l,
  StronglySorted R l -> StronglySorted R (skipn n l).
Proof.
  induction n as [|n IH]; intros l Hs; [exact Hs|].
  destruct l as [|a l]; [exact Hs|]. cbn.
  inversion Hs; subst. now apply IH.
Qed.

(** Pushing an entry stamped at or after [t] and cutting at the front
    keeps the history in order. *)
Lemma timely_push t h x n :
  timely t h -> (t <= timestamp x)%Z ->
  timely (timestamp x) (sliceLast n (h ++ [x])).
Proof.
  intros [Hc Hu] Hx. unfold timely, chronological, upTo, sliceLast in *.
  split.
  - rewrite <- skipn_map. apply sorted_skipn.
    rewrite map_app. cbn [map]. apply sorted_push; [exact Hc|].
    rewrite Forall_map. eapply Forall_impl; [|exact Hu].
    cbv beta. intros s Hs. lia.
  - apply Forall_skipn. apply Forall_app. split.
    + eapply Forall_impl; [|exact Hu]. cbv beta. intros s Hs. lia.
    + constructor; [lia | constructor].
Qed.

Lemma clock_tick t captured prevHist :
  timely t prevHist ->
  triple (notBefore t) (tick captured prevHist)
    (fun r w => exists t', notBefore t' w /\ timely t' (fst r)).
Proof.
  intros Ht. unfold tick.
  eapply triple_bind; [apply clock_nextSample|]. cbv beta.
  intros nextPoint. apply triple_ret. intros w [Hle Hnb].
  exists (timestamp nextPoint). split; [exact Hnb|].
  cbn [fst]. exact (timely_push t prevHist nextPoint _ Ht Hle).
Qed.

Lemma clock_forceRefill t prev :
  timely t prev ->
  triple (notBefore t) (forceRefill prev)
    (fun r w => forall h, r = Samples h ->
                  exists t', notBefore t' w /\ timely t' h).
Proof.
  intros Ht. unfold forceRefill.
  eapply triple_bind; [apply clock_rand|]. cbv beta. intros x.
  eapply triple_bind; [apply clock_dateNow|]. cbv beta. intros now.
  destruct (lastOf prev) as [last|]; apply triple_ret; intros w [Hle Hnb] h E.
  - injection E as <-. exists now. split; [exact Hnb|].
    exact (timely_push t prev (mkSample now _ _ _ _) _ Ht Hle).
  - discriminate.
Qed.

Lemma clock_handle t captured app e :
  timely t (history app) ->
  triple (notBefore t) (handle captured app e)
    (fun r w => forall app', r = Some app' ->
                  exists t', notBefore t' w /\ timely t' (history app')).
Proof.
  intros Ht. destruct e; unfold handle.
  - eapply triple_bind; [apply clock_tick, Ht|]. cbv beta. intros r.
    apply triple_ret. intros w H app' E. injection E as <-. exact H.
  - eapply triple_bind; [apply clock_forceRefill, Ht|]. cbv beta. intros r.
    apply triple_ret. intros w H app' E.
    destruct r as [h|]; [|discriminate]. injection E as <-.
    now apply H.
  - apply triple_ret. intros w Hw app' E. injection E as <-.
    exists t. now split.
Qed.

Lemma clock_run captured es : forall t app,
  timely t (history app) ->
  triple (notBefore t) (run captured app es)
    (fun r w => forall app', r = Some app' ->
                  exists t', notBefore t' w /\ timely t' (history app')).
Proof.
  induction es as [|e es IH]; intros t app Ht; cbn [run].
  - apply triple_ret. intros w Hw app' E. injection E as <-.
    exists t. now split.
  - eapply triple_bind; [apply clock_handle, Ht|]. cbv beta.
    intros [app1|] w H.
    + destruct (H app1 eq_refl) as [t' [Hnb Ht']].
      exact (IH t' app1 Ht' w Hnb).
    + intros app' E. discriminate.
Qed.

Lemma clock_jitter t prev lo hi :
  triple (notBefore t) (jitter prev lo hi) (fun _ => notBefore t).
Proof.
  unfold jitter. pass. pass. now apply triple_ret.
Qed.

Lemma clock_seedStep t prev i :
  triple (notBefore t) (seedStep prev i)
    (fun s w => exists now,
       (t <= now)%Z /\ notBefore now w /\
       timestamp s
       = (now - (Z.of_nat HISTORY_POINTS - Z.of_nat i) * INTERVAL_MS)%Z).
Proof.
  unfold seedStep.
  eapply triple_bind; [apply clock_dateNow|]. cbv beta. intros now.
  eapply triple_bind with (Mid := fun _ w => (t <= now)%Z /\ notBefore now w).
  { intros w [Hle Hnb]. split; [exact Hle|]. exact (clock_jitter now _ _ _ w Hnb). }
  intros p.
  eapply triple_bind with (Mid := fun _ w => (t <= now)%Z /\ notBefore now w).
  { intros w [Hle Hnb]. split; [exact Hle|]. exact (clock_jitter now _ _ _ w Hnb). }
  intros tu.
  eapply triple_bind with (Mid := fun _ w => (t <= now)%Z /\ notBefore now w).
  { intros w [Hle Hnb]. split; [exact Hle|]. exact (clock_jitter now _ _ _ w Hnb). }
  intros te.
  eapply triple_bind with (Mid := fun _ w => (t <= now)%Z /\ notBefore now w).
  { intros w [Hle Hnb]. split; [exact Hle|]. exact (clock_rand now _ _ w Hnb). }
  intros dl.
  eapply triple_bind with (Mid := fun _ w => (t <= now)%Z /\ notBefore now w).
  { intros w [Hle Hnb]. split; [exact Hle|]. exact (clock_random now w Hnb). }
  intros r.
  eapply triple_bind with (Mid := fun _ w => (t <= now)%Z /\ notBefore now w).
  { intros w [Hle Hnb]. split; [exact Hle|].
    refine (clock_branch now _ _ _ _ _ w Hnb); [pass|]; now apply triple_ret. }
  intros level'. apply triple_ret. intros w [Hle Hnb].
  exists now. split; [exact Hle|]. split; [exact Hnb|]. reflexivity.
Qed.

(** The seeded entries are stamped 1800 ms apart or more, the last one at
    least 1800 ms before the clock. *)
Lemma clock_seedLoop n : forall i prev h t,
  (i + n = HISTORY_POINTS)%nat ->
  chronological h ->
  upTo (t - (Z.of_nat HISTORY_POINTS - Z.of_nat i) * INTERVAL_MS) h ->
  triple (notBefore t) (seedLoop n i prev h)
    (fun r w => exists t', notBefore t' w /\ timely t' r).
Proof.
  induction n as [|n IH]; intros i prev h t Hi Hc Hu; cbn [seedLoop].
  - apply triple_ret. intros w Hw. exists t. split; [exact Hw|].
    split; [exact Hc|]. eapply Forall_impl; [|exact Hu].
    cbv beta. intros s Hs. unfold HISTORY_POINTS, INTERVAL_MS in *. lia.
  - eapply triple_bind; [apply clock_seedStep|]. cbv beta.
    intros s w [now [Hle [Hnb Ets]]].
    assert (Hold : upTo (timestamp s) h).
    { eapply Forall_impl; [|exact Hu]. cbv beta. intros x Hx.
      rewrite Ets. unfold HISTORY_POINTS, INTERVAL_MS in *. lia. }
    apply (IH (S i) s (h ++ [s]) now); [lia | | | exact Hnb].
    + unfold chronological. rewrite map_app. cbn [map].
      apply sorted_push; [exact Hc|]. rewrite Forall_map. exact Hold.
    + apply Forall_app. split.
      * eapply Forall_impl; [|exact Hold]. cbv beta. intros x Hx.
        rewrite Ets in Hx. unfold HISTORY_POINTS, INTERVAL_MS in *. lia.
      * constructor; [|constructor].
        rewrite Ets. unfold HISTORY_POINTS, INTERVAL_MS in *. lia.
Qed.

(** With a clock that never runs backwards, the history of a session is
    in the order of its timestamps. *)
Lemma clock_session es w :
  clock_ok w ->
  forall app, fst (session es w) = Some app -> chronological (history app).
Proof.
  intros Hok app E.
  assert (H : triple (notBefore (clock w 0)) (session es)
                (fun r w' => forall app', r = Some app' ->
                   exists t', notBefore t' w' /\ timely t' (history app'))).
  { unfold session.
    eapply triple_bind; [apply clock_dateNow|]. cbv beta. intros t0.
    unfold mount.
    eapply triple_bind with
      (Mid := fun app1 w' => exists t', notBefore t' w' /\ timely t' (history app1)).
    { eapply triple_bind with
        (Mid := fun h w' => exists t', notBefore t' w' /\ timely t' h).
      - intros w1 [_ Hnb]. unfold seed.
        apply (clock_seedLoop HISTORY_POINTS 0 _ [] t0); try exact Hnb.
        + reflexivity.
        + constructor.
        + constructor.
      - intros h. apply triple_ret. intros w1 H1. exact H1. }
    intros app1 w1 [t' [Hnb Ht']].
    exact (clock_run _ es t' app1 Ht' w1 Hnb). }
  destruct (H w (conj Hok (Z.le_refl _)) app E) as [t' [_ [Hc _]]].
  exact Hc.
Qed.

(* ================================================================= *)
(** * The properties C1 to C10 *)

(** ** C1: turbidity of a tick *)




(** ** C5: pH of a tick *)



Example nextSample_initial :
  let s := fst (nextSample (initialCurrent 0) (replay [] 0.25 [] 7)) in
  timestamp s = 7%Z /\ pH s == 7.35 /\ turbidity s == 1.48 /\
  temperature s == 28.0 /\ waterLevelPercent s == 78.3.
Proof. vm_compute. repeat split. Qed.

(** ** C2: the history is capped at forty entries, oldest first out *)

Lemma capped_length {A} (l : list A) (x : A) :
  (List.length (sliceLast HISTORY_POINTS (l ++ [x])) <= HISTORY_POINTS)%nat.
Proof. rewrite sliceLast_length. lia. Qed.

(** Every event leaves at most forty entries, whatever the history was. *)
Lemma handle_capped captured app e w app' :
  fst (handle captured app e w) = Some app' ->
  (List.length (history app) <= HISTORY_POINTS)%nat ->
  (List.length (history app') <= HISTORY_POINTS)%nat.
Proof.
  intros E Hlen. pose proof (handle_shape captured app e w) as H.
  rewrite E in H. destruct e; cbn [handled] in H.
  - destruct H as [nextPoint [_ H]]. injection H as ->.
    cbn [history]. apply capped_length.
  - destruct H as [x [now [_ H]]].
    destruct (lastOf (history app)) as [last|]; [|discriminate].
    injection H as ->. cbn [history]. apply capped_length.
  - injection H as ->. exact Hlen.
Qed.

Lemma run_capped captured es : forall app w app',
  fst (run captured app es w) = Some app' ->
  (List.length (history app) <= HISTORY_POINTS)%nat ->
  (List.length (history app') <= HISTORY_POINTS)%nat.
Proof.
  induction es as [|e es IH]; intros app w app' E Hlen; cbn [run] in E.
  - injection E as <-. exact Hlen.
  - unfold bind in E.
    destruct (handle captured app e w) as [[app1|] w1] eqn:Eh; cbn in E.
    + apply (IH app1 w1 app' E).
      apply (handle_capped captured app e w app1); [now rewrite Eh | exact Hlen].
    + discriminate.
Qed.

(** C2: appending to a full history [a :: l] by a tick or by a forced
    refill drops the oldest entry [a] and keeps the others in their order,
    the new entry last; after a tick or a forced refill of any history,
    after the seeding, after any run of events from a history of at most
    forty entries, and at the end of any session, the history has at most
    forty entries; and when the clock never runs backwards the timestamps
    of the history at the end of a session never decrease. *)
Theorem C2_history_capacity (captured a : Sample) (l prev : list Sample)
    (app : App) (es : list Event) (w : World) :
  List.length (a :: l) = HISTORY_POINTS ->
  (List.length (history app) <= HISTORY_POINTS)%nat ->
  let t := fst (tick captured (a :: l) w) in
  (fst t = l ++ [snd t]) /\
  (exists refill, fst (forceRefill (a :: l) w) = Samples (l ++ [refill])) /\
  (List.length (fst (fst (tick captured prev w))) <= HISTORY_POINTS)%nat /\
  (forall h, fst (forceRefill prev w) = Samples h ->
             (List.length h <= HISTORY_POINTS)%nat) /\
  List.length (fst (seed captured w)) = HISTORY_POINTS /\
  (forall app', fst (run captured app es w) = Some app' ->
                (List.length (history app') <= HISTORY_POINTS)%nat) /\
  (exists app', fst (session es w) = Some app' /\
                (List.length (history app') <= HISTORY_POINTS)%nat /\
                (clock_ok w -> chronological (history app'))).
Proof.
  intros Hfull Hlen t.
  split; [|split; [|split; [|split; [|split; [|split]]]]].
  - destruct (tick_nextSample captured (a :: l) w) as [_ [E _]].
    fold t in E. rewrite E. apply sliceLast_push_full, Hfull.
  - destruct (forceRefill_shape (a :: l) w) as [x [now E]].
    destruct (lastOf_nonempty (a :: l)) as [last Hlast]; [cbn; lia|].
    rewrite Hlast in E. exists (refillOf last x now).
    rewrite E. f_equal. apply sliceLast_push_full, Hfull.
  - destruct (tick_nextSample captured prev w) as [_ [E _]].
    rewrite E. apply capped_length.
  - intros h Eh. destruct (forceRefill_shape prev w) as [x [now E]].
    rewrite Eh in E. destruct (lastOf prev) as [last|]; [|discriminate].
    injection E as ->. apply capped_length.
  - exact (proj1 (proj1 (seed_est anyWorld anySample
                           (fun _ _ => always_trivial _) captured w I))).
  - intros app' E. exact (run_capped captured es app w app' E Hlen).
  - destruct (session_full es w) as [app' [E Hl]].
    exists app'. split; [exact E|]. split; [rewrite Hl; lia|].
    intros Hok. exact (clock_session es w Hok app' E).
Qed.

(** C2, witness: a tick on a full history. *)
Lemma C2_history_capacity_witness :
  List.length (initialCurrent 0 :: fullHistory) = HISTORY_POINTS /\
  fst (fst (tick (initialCurrent 0) (initialCurrent 0 :: fullHistory)
              (replay [] 0.25 [] 7)))
  = fullHistory
    ++ [snd (fst (tick (initialCurrent 0) (initialCurrent 0 :: fullHistory)
                    (replay [] 0.25 [] 7)))].
Proof.
  split; [reflexivity|].
  refine (proj1 (C2_history_capacity (initialCurrent 0) (initialCurrent 0)
                   fullHistory [] (initialApp 0) [Timer] (replay [] 0.25 [] 7)
                   _ _)).
  - reflexivity.
  - cbn. lia.
Defined.

(** ** C8: the forced refill *)

Lemma skipn_push_nth {A} k (l : list A) x i :
  (i < List.length (skipn k l))%nat ->
  nth_error (skipn k l ++ [x]) i = nth_error l (k + i).
Proof.
  intros Hi. rewrite nth_error_app1 by exact Hi. apply nth_error_skipn.
Qed.

(** C8: for every history, the forced refill pushes a copy of the last
    entry whose waterLevelPercent is in [82, 100] and whose pH, turbidity
    and temperature are those of the last entry, and cuts the array to its
    last forty entries: the new history is the old one without its first
    [length + 1 - 40] entries, each survivor unchanged and in place before
    the new entry.  (From the empty history the pushed object has only the
    level, in [82, 100], and the time.) *)
Theorem C8_forced_refill (prev : list Sample) (w : World) :
  rng_ok w ->
  match fst (forceRefill prev w) with
  | Samples h =>
      exists last refill,
        lastOf prev = Some last /\
        lastOf h = Some refill /\
        (82 <= waterLevelPercent refill /\ waterLevelPercent refill <= 100) /\
        pH refill = pH last /\
        turbidity refill = turbidity last /\
        temperature refill = temperature last /\
        h = skipn (S (List.length prev) - HISTORY_POINTS) prev ++ [refill] /\
        (forall i, (i < List.length h - 1)%nat ->
           nth_error h i
           = nth_error prev (S (List.length prev) - HISTORY_POINTS + i))
  | Fragment level _ => prev = [] /\ 82 <= level /\ level <= 100
  end.
Proof.
  intros Hw.
  destruct (proj1 (forceRefill_est rng_ok rng_ok_dateNow refillDraw
                     post_refill_draw prev w Hw)) as [x [now [Hx E]]].
  rewrite E. apply refillDraw_clamp in Hx.
  destruct (lastOf_cases prev) as [[Hnil Hlast] | [l' [last [_ Hlast]]]];
    rewrite Hlast.
  - split; [exact Hnil | exact Hx].
  - exists last, (refillOf last x now).
    assert (Eh : sliceLast HISTORY_POINTS (prev ++ [refillOf last x now])
                 = skipn (S (List.length prev) - HISTORY_POINTS) prev
                     ++ [refillOf last x now]).
    { apply sliceLast_push. unfold HISTORY_POINTS. lia. }
    split; [reflexivity|].
    split; [rewrite Eh; apply lastOf_push|].
    split; [exact Hx|].
    split; [reflexivity|]. split; [reflexivity|]. split; [reflexivity|].
    split; [exact Eh|].
    intros i Hi. rewrite Eh in *. rewrite length_app in Hi. cbn [List.length] in Hi.
    apply skipn_push_nth. lia.
Qed.

(** C8, witness: a refill of a two-entry history. *)
Lemma C8_forced_refill_witness :
  rng_ok (replay [] 0.5 [] 9) /\
  match fst (forceRefill [atCeiling; initialCurrent 0] (replay [] 0.5 [] 9)) with
  | Samples h =>
      exists last refill,
        lastOf [atCeiling; initialCurrent 0] = Some last /\
        lastOf h = Some refill /\
        (82 <= waterLevelPercent refill /\ waterLevelPercent refill <= 100) /\
        pH refill = pH last /\
        turbidity refill = turbidity last /\
        temperature refill = temperature last /\
        h = skipn (S (List.length [atCeiling; initialCurrent 0]) - HISTORY_POINTS)
              [atCeiling; initialCurrent 0] ++ [refill] /\
        (forall i, (i < List.length h - 1)%nat ->
           nth_error h i
           = nth_error [atCeiling; initialCurrent 0]
               (S (List.length [atCeiling; initialCurrent 0]) - HISTORY_POINTS + i))
  | Fragment level _ =>
      [atCeiling; initialCurrent 0] = [] /\ 82 <= level /\ level <= 100
  end.
Proof.
  assert (Hw : rng_ok (replay [] 0.5 [] 9)) by (apply replay_rng_ok; reflexivity).
  split; [exact Hw|].
  exact (C8_forced_refill [atCeiling; initialCurrent 0] (replay [] 0.5 [] 9) Hw).
Defined.

Example forceRefill_two :
  fst (forceRefill [atCeiling; initialCurrent 0] (replay [] 0.5 [] 9))
  = Samples [atCeiling; initialCurrent 0;
             mkSample 9 7.4 1.5 28.0 (clamp (0.5 * (100 - 82) + 82) 0 100)].
Proof. reflexivity. Qed.

Example forceRefill_empty :
  match fst (forceRefill [] (replay [] 0.5 [] 9)) with
  | Fragment level stamp => level == 91 /\ stamp = 9%Z
  | Samples _ => False
  end.
Proof. vm_compute. split; reflexivity. Qed.

(** ** C9: the forced refill leaves [current] alone *)

(** C9: on a history that is not empty, the Force Refill click pushes the
    refill entry to the history and leaves [current] as it was, so the
    statuses, the overall flag and the alerts of the next render are those
    of the render before; the next timer tick then generates its sample
    from the refill entry and makes it the new [current]. *)
Theorem C9_refill_keeps_current (th : Thresholds) (captured : Sample)
    (app : App) (w w2 : World) :
  history app <> [] ->
  exists app' refill,
    fst (handle captured app ForceRefillClick w) = Some app' /\
    current app' = current app /\
    history app' = sliceLast HISTORY_POINTS (history app ++ [refill]) /\
    lastOf (history app') = Some refill /\
    v_status (render th app') = v_status (render th app) /\
    v_overallOk (render th app') = v_overallOk (render th app) /\
    v_alerts (render th app') = v_alerts (render th app) /\
    exists app2,
      fst (handle captured app' Timer w2) = Some app2 /\
      current app2 = fst (nextSample refill w2) /\
      lastOf (history app2) = Some (current app2).
Proof.
  intros Hne.
  pose proof (handle_shape captured app ForceRefillClick w) as H.
  cbn [handled] in H. destruct H as [x [now [_ E]]].
  destruct (lastOf_cases (history app)) as [[Hnil _] | [l' [last [_ Hlast]]]];
    [contradiction|].
  rewrite Hlast in E.
  eexists. exists (refillOf last x now).
  split; [exact E|]. cbn [current history].
  split; [reflexivity|]. split; [reflexivity|].
  assert (Hl : lastOf (sliceLast HISTORY_POINTS
                         (history app ++ [refillOf last x now]))
               = Some (refillOf last x now)).
  { apply lastOf_sliceLast_push. unfold HISTORY_POINTS. lia. }
  split; [exact Hl|].
  split; [reflexivity|]. split; [reflexivity|]. split; [reflexivity|].
  unfold handle, bind, ret.
  pose proof (tick_nextSample captured
                (sliceLast HISTORY_POINTS (history app ++ [refillOf last x now]))
                w2) as Ht.
  cbv zeta in Ht. unfold lastOr in Ht. rewrite Hl in Ht.
  cbn [history modeScientific].
  destruct (tick captured _ w2) as [[newHist nextPoint] w3].
  cbn [fst snd] in *. destruct Ht as [E1 [_ E2]].
  eexists. split; [reflexivity|]. cbn [current history].
  split; assumption.
Qed.

(** C9, witness: a refill while the tank is reported low. *)
Lemma C9_refill_keeps_current_witness :
  history lowTank <> [] /\
  exists app' refill,
    fst (handle (initialCurrent 0) lowTank ForceRefillClick (replay [] 0.5 [] 9))
    = Some app' /\
    current app' = current lowTank /\
    history app' = sliceLast HISTORY_POINTS (history lowTank ++ [refill]) /\
    lastOf (history app') = Some refill /\
    v_status (render THRESHOLDS app') = v_status (render THRESHOLDS lowTank) /\
    v_overallOk (render THRESHOLDS app') = v_overallOk (render THRESHOLDS lowTank) /\
    v_alerts (render THRESHOLDS app') = v_alerts (render THRESHOLDS lowTank) /\
    exists app2,
      fst (handle (initialCurrent 0) app' Timer (replay [] 0.25 [] 11)) = Some app2 /\
      current app2 = fst (nextSample refill (replay [] 0.25 [] 11)) /\
      lastOf (history app2) = Some (current app2).
Proof.
  assert (Hne : history lowTank <> []) by (intros H; discriminate H).
  split; [exact Hne|].
  exact (C9_refill_keeps_current THRESHOLDS (initialCurrent 0) lowTank
           (replay [] 0.5 [] 9) (replay [] 0.25 [] 11) Hne).
Defined.

(** After the refill the last entry of the history is at 91 percent, and
    the render still reports the 10 percent of [current]. *)
Example refill_stale_alert :
  match fst (handle (initialCurrent 0) lowTank ForceRefillClick
               (replay [] 0.5 [] 9)) with
  | Some app' =>
      option_map waterLevelPercent (lastOf (history app'))
        = Some (clamp (0.5 * (100 - 82) + 82) 0 100) /\
      v_overallOk (render THRESHOLDS app') = false /\
      v_alerts (render THRESHOLDS app') = ["Water level 10% low (< 20%)"%string]
  | None => False
  end.
Proof. vm_compute. repeat split. Qed.

(** ** C3: temperature only warns *)

Lemma Level_eqb_eq a b : Level_eqb a b = true <-> a = b.
Proof. destruct a, b; cbn; split; intros H; congruence. Qed.

Lemma overallOk_iff st :
  overallOk st = true <->
  Forall (fun s => s = ok \/ s = warn) (values st).
Proof.
  unfold overallOk. rewrite forallb_forall, Forall_forall.
  split; intros H s Hs; specialize (H s Hs).
  - apply orb_true_iff in H. rewrite !Level_eqb_eq in H. exact H.
  - apply orb_true_iff. rewrite !Level_eqb_eq. exact H.
Qed.

(** C3: a sample whose temperature is above the threshold while the other
    channels are within theirs has temperature status "warn", not "bad",
    the other statuses "ok", and is overall safe; a temperature at or
    below the threshold gives "ok", whatever the sample no temperature
    status is "bad".  For any status object, the overall flag is true
    exactly when each of the four channels pH, turbidity, temperature and
    water level is "ok" or "warn", and "bad" on any of them makes it
    false; for the statuses of a sample, it is false exactly when pH,
    turbidity or water level is "bad". *)
Theorem C3_temperature_only_warns (th : Thresholds) (s other : Sample)
    (st : Status) :
  temperature_max th < temperature s ->
  pH_min th <= pH s /\ pH s <= pH_max th ->
  turbidity s <= turbidity_max th ->
  waterLevelPercent_min th <= waterLevelPercent s ->
  st_temperature (status th s) = warn /\
  st_temperature (status th s) <> bad /\
  status th s = mkStatus ok ok warn ok /\
  overallOk (status th s) = true /\
  (temperature other <= temperature_max th ->
   st_temperature (status th other) = ok) /\
  st_temperature (status th other) <> bad /\
  (overallOk (status th other) = true <->
   Forall (fun l => l = ok \/ l = warn) (values (status th other))) /\
  (overallOk st = true <->
   (st_pH st = ok \/ st_pH st = warn) /\
   (st_turbidity st = ok \/ st_turbidity st = warn) /\
   (st_temperature st = ok \/ st_temperature st = warn) /\
   (st_waterLevel st = ok \/ st_waterLevel st = warn)) /\
  (st_pH st = bad \/ st_turbidity st = bad \/
   st_temperature st = bad \/ st_waterLevel st = bad ->
   overallOk st = false) /\
  (overallOk (status th other) = false <->
   st_pH (status th other) = bad \/ st_turbidity (status th other) = bad \/
   st_waterLevel (status th other) = bad).
Proof.
  intros Htemp [HpH1 HpH2] Hturb Hlevel.
  assert (E : status th s = mkStatus ok ok warn ok).
  { unfold status.
    apply Qle_bool_iff in HpH1, HpH2, Hturb, Hlevel.
    apply Qle_bool_false in Htemp.
    now rewrite HpH1, HpH2, Hturb, Hlevel, Htemp. }
  rewrite E. cbn [st_temperature].
  split; [reflexivity|]. split; [discriminate|]. split; [reflexivity|].
  split; [reflexivity|]. split; [|split; [|split; [|split; [|split]]]].
  - intros Hle. unfold status. cbn [st_temperature].
    apply Qle_bool_iff in Hle. now rewrite Hle.
  - unfold status. cbn [st_temperature].
    destruct (Qle_bool (temperature other) (temperature_max th)); discriminate.
  - apply overallOk_iff.
  - destruct st as [a b c d]. cbn [st_pH st_turbidity st_temperature st_waterLevel].
    destruct a, b, c, d; cbn; split;
      solve [ intros _; repeat split; (left + right); reflexivity
            | intros H; discriminate H
            | intros [[H|H] [[H1|H1] [[H2|H2] [H3|H3]]]]; discriminate ].
  - destruct st as [a b c d]. cbn [st_pH st_turbidity st_temperature st_waterLevel].
    destruct a, b, c, d; cbn; intros [H | [H | [H | H]]];
      first [reflexivity | discriminate H].
  - unfold status.
    cbn [st_pH st_turbidity st_temperature st_waterLevel].
    destruct (Qle_bool (pH_min th) (pH other) && Qle_bool (pH other) (pH_max th)),
      (Qle_bool (turbidity other) (turbidity_max th)),
      (Qle_bool (temperature other) (temperature_max th)),
      (Qle_bool (waterLevelPercent_min th) (waterLevelPercent other));
      cbn; split;
      solve [ intros H; discriminate H
            | intros [H | [H | H]]; discriminate H
            | intros _; auto ].
Qed.

(** C3, witness: 40 degrees, the other channels fine. *)
Lemma C3_temperature_only_warns_witness :
  temperature_max THRESHOLDS < temperature (mkSample 0 7 1 40 50) /\
  st_temperature (status THRESHOLDS (mkSample 0 7 1 40 50)) = warn /\
  overallOk (status THRESHOLDS (mkSample 0 7 1 40 50)) = true.
Proof.
  assert (H1 : temperature_max THRESHOLDS < temperature (mkSample 0 7 1 40 50))
    by reflexivity.
  assert (H2 : pH_min THRESHOLDS <= pH (mkSample 0 7 1 40 50) /\
               pH (mkSample 0 7 1 40 50) <= pH_max THRESHOLDS)
    by (split; vm_compute; discriminate).
  assert (H3 : turbidity (mkSample 0 7 1 40 50) <= turbidity_max THRESHOLDS)
    by (vm_compute; discriminate).
  assert (H4 : waterLevelPercent_min THRESHOLDS
               <= waterLevelPercent (mkSample 0 7 1 40 50))
    by (vm_compute; discriminate).
  split; [exact H1|].
  pose proof (C3_temperature_only_warns THRESHOLDS (mkSample 0 7 1 40 50)
                (mkSample 0 7 1 40 50)
                (status THRESHOLDS (mkSample 0 7 1 40 50)) H1 H2 H3 H4) as H.
  split; [exact (proj1 H) | exact (proj1 (proj2 (proj2 (proj2 H))))].
Defined.

(** ** C7: the evaluation depends on the readings alone *)

Lemma numToString_comp v v' : v == v' -> numToString v = numToString v'.
Proof.
  intros E. unfold numToString.
  rewrite (fixedDigits_comp v v' 17 E).
  rewrite (Qlt_bool_comp v v' 0 0 E (Qeq_refl 0)). reflexivity.
Qed.

Lemma status_comp th th' c c' :
  sameThresholds th th' -> sameReadings c c' -> status th c = status th' c'.
Proof.
  intros [T1 [T2 [T3 [T4 T5]]]] [R1 [R2 [R3 R4]]]. unfold status.
  now rewrite T1, T2, T3, T4, T5, R1, R2, R3, R4.
Qed.

Lemma alerts_comp th th' c c' st :
  sameThresholds th th' -> sameReadings c c' ->
  alerts th c st = alerts th' c' st.
Proof.
  intros [T1 [T2 [T3 [T4 T5]]]] [R1 [R2 [R3 R4]]].
  unfold alerts, pHAlert, turbidityAlert, waterLevelAlert, format.
  rewrite (toFixed_comp _ _ 2 R1), (toFixed_comp _ _ 2 R2).
  rewrite (numToString_comp _ _ T1), (numToString_comp _ _ T2),
    (numToString_comp _ _ T3), (numToString_comp _ _ T5),
    (numToString_comp _ _ R4).
  reflexivity.
Qed.

(** C7: two renders whose current samples carry the same readings, with
    the same thresholds, give the same statuses, the same overall flag and
    the same alert strings, whatever their histories, their display mode
    and the timestamps; and they are the evaluation of the current sample
    alone. *)
Theorem C7_evaluation_pure (th th' : Thresholds) (c c' : Sample)
    (m m' : bool) (h h' : list Sample) :
  sameThresholds th th' ->
  sameReadings c c' ->
  let v := render th (mkApp m h c) in
  let v' := render th' (mkApp m' h' c') in
  v_status v = v_status v' /\
  v_overallOk v = v_overallOk v' /\
  v_alerts v = v_alerts v' /\
  v_status v = status th c /\
  v_overallOk v = overallOk (status th c) /\
  v_alerts v = alerts th c (status th c).
Proof.
  intros Hth Hc v v'. subst v v'. unfold render.
  cbn [v_status v_overallOk v_alerts current history].
  rewrite <- (status_comp th th' c c' Hth Hc).
  rewrite <- (alerts_comp th th' c c' _ Hth Hc).
  repeat split.
Qed.

(** C7, witness: the same readings written as different fractions, under
    different histories. *)
Lemma C7_evaluation_pure_witness :
  sameThresholds THRESHOLDS THRESHOLDS /\
  sameReadings (mkSample 0 9.0 1 20 50) (mkSample 5 (18 # 2) (3 # 3) 20 50) /\
  v_alerts (render THRESHOLDS (mkApp false [] (mkSample 0 9.0 1 20 50)))
  = v_alerts (render THRESHOLDS
                (mkApp true [atCeiling] (mkSample 5 (18 # 2) (3 # 3) 20 50))).
Proof.
  assert (H1 : sameThresholds THRESHOLDS THRESHOLDS) by (repeat split; reflexivity).
  assert (H2 : sameReadings (mkSample 0 9.0 1 20 50)
                 (mkSample 5 (18 # 2) (3 # 3) 20 50))
    by (repeat split; reflexivity).
  split; [exact H1|]. split; [exact H2|].
  exact (proj1 (proj2 (proj2
    (C7_evaluation_pure THRESHOLDS THRESHOLDS (mkSample 0 9.0 1 20 50)
       (mkSample 5 (18 # 2) (3 # 3) 20 50) false true [] [atCeiling] H1 H2)))).
Defined.

(** ** C4: one alert per bad channel *)








Example alerts_all_bad :
  alerts THRESHOLDS (mkSample 0 6.25 7.5 50 19.9)
    (status THRESHOLDS (mkSample 0 6.25 7.5 50 19.9))
  = [ "pH 6.25 out of safe range (6.5-8.5)";
      "Turbidity 7.50 NTU > 5";
      "Water level 19.9% low (< 20%)" ]%string.
Proof. vm_compute. reflexivity. Qed.

Example evaluate_initial :
  status THRESHOLDS (initialCurrent 0) = mkStatus ok ok ok ok /\
  overallOk (status THRESHOLDS (initialCurrent 0)) = true /\
  alerts THRESHOLDS (initialCurrent 0) (status THRESHOLDS (initialCurrent 0)) = [].
Proof. repeat split. Qed.

Example evaluate_low_level :
  st_waterLevel (status THRESHOLDS (mkSample 0 7 1 20 10)) = bad /\
  overallOk (status THRESHOLDS (mkSample 0 7 1 20 10)) = false.
Proof. split; reflexivity. Qed.

(** ** C6 and C10: the sparkline path builder *)

Lemma plot_orOne len min r w h v i :
  plot len min (orOne r) w h v i = Some (pointOf len min (orOne r) w h v i).
Proof. unfold plot, pointOf. now rewrite !jsdiv_orOne. Qed.

Lemma allSome_mapi {A B} (f : A -> nat -> option B) (g : A -> nat -> B) l :
  (forall a i, f a i = Some (g a i)) ->
  forall i, allSome (mapi f i l) = Some (mapi g i l).
Proof.
  intros H. induction l as [|a l IH]; intros i; cbn; [reflexivity|].
  now rewrite H, IH.
Qed.

Lemma mapi_length {A B} (f : A -> nat -> B) l :
  forall i, List.length (mapi f i l) = List.length l.
Proof. induction l as [|a l IH]; intros i; cbn; [reflexivity | now rewrite IH]. Qed.

Lemma Forall_mapi {A B} (P : B -> Prop) (f : A -> nat -> B) l :
  (forall a i, In a l -> P (f a i)) -> forall i, Forall P (mapi f i l).
Proof.
  induction l as [|a l IH]; intros H i; cbn; constructor.
  - apply H. now left.
  - apply IH. intros b j Hb. apply H. now right.
Qed.

(** [sparkPoints] never divides by zero: it plots one point per value. *)
Lemma sparkPoints_plots vals w h :
  sparkPoints vals w h
  = Some match vals with
         | [] => []
         | v0 :: vs =>
             mapi (pointOf (List.length vals) (fold_left Qmin vs v0)
                     (rangeOf v0 vs) w h) 0 vals
         end.
Proof.
  destruct vals as [|v0 vs]; [reflexivity|].
  unfold sparkPoints, rangeOf. apply allSome_mapi.
  intros a i. apply plot_orOne.
Qed.

Lemma sparkPoints_total vals w h :
  exists pts, sparkPoints vals w h = Some pts /\
              List.length pts = List.length vals.
Proof.
  rewrite sparkPoints_plots. eexists. split; [reflexivity|].
  destruct vals as [|v0 vs]; [reflexivity | apply mapi_length].
Qed.

Lemma fold_max_flat v vs : forall a,
  a == v -> Forall (fun x => x == v) vs -> fold_left Qmax vs a == v.
Proof.
  induction vs as [|x vs IH]; intros a Ha Hall; cbn [fold_left]; [exact Ha|].
  inversion Hall as [|x' vs' Hx Hvs]; subst. apply IH; [|exact Hvs].
  destruct (Q.max_spec a x) as [[_ E] | [_ E]]; rewrite E; assumption.
Qed.

Lemma fold_min_flat v vs : forall a,
  a == v -> Forall (fun x => x == v) vs -> fold_left Qmin vs a == v.
Proof.
  induction vs as [|x vs IH]; intros a Ha Hall; cbn [fold_left]; [exact Ha|].
  inversion Hall as [|x' vs' Hx Hvs]; subst. apply IH; [|exact Hvs].
  destruct (Q.min_spec a x) as [[_ E] | [_ E]]; rewrite E; assumption.
Qed.

(** With a zero range the guard makes the divisor 1, and a value equal to
    the minimum is drawn at [y = h]. *)
Lemma pointOf_flat len min w h v i :
  v == min -> snd (pointOf len min (orOne (min - min)) w h v i) == h.
Proof.
  intros E. unfold pointOf, orOne. cbn [snd].
  assert (Hz : Qeq_bool (min - min) 0 = true) by (apply Qeq_eq_bool; ring).
  rewrite Hz. rewrite E. unfold Qdiv. ring.
Qed.

(** C6, counterexample: the one point of a single value is drawn at the
    left end of the bottom edge, not at the middle of the box. *)
Lemma C6_single_point_not_midpoint :
  sparkPath [5] 140 36 = Some "M 0.0 36.0"%string /\
  exists x y, sparkPoints [5] 140 36 = Some [(x, y)] /\
              x == 0 /\ y == 36 /\ ~ x == 140 / 2 /\ ~ y == 36 / 2.
Proof.
  split; [vm_compute; reflexivity|].
  eexists. eexists. split; [vm_compute; reflexivity|].
  repeat split; try reflexivity; intros H; discriminate H.
Qed.

(** C6, as the code has it: the path builder divides by zero on no input
    (it returns a path, of one point per value); the empty array gives the
    empty path; a single value gives the one point [(0, h)], the left end
    of the bottom edge, whose command is [M 0.0] followed by [h] to one
    place. *)
Theorem C6_sparkPath_total (vals : list Q) (w h v : Q) :
  (exists path, sparkPath vals w h = Some path) /\
  (exists pts, sparkPoints vals w h = Some pts /\
               List.length pts = List.length vals) /\
  sparkPath [] w h = Some ""%string /\
  (exists x y, sparkPoints [v] w h = Some [(x, y)] /\ x == 0 /\ y == h) /\
  sparkPath [v] w h = Some ("M 0.0 " ++ toFixed h 1)%string.
Proof.
  assert (Hsingle : exists x y,
             sparkPoints [v] w h = Some [(x, y)] /\ x == 0 /\ y == h).
  { rewrite sparkPoints_plots. cbn [mapi List.length fold_left].
    eexists. eexists. split; [reflexivity|]. split.
    - unfold ofNat. cbn. unfold Qdiv. ring.
    - unfold rangeOf. cbn [fold_left].
      exact (pointOf_flat 1 v w h v 0 (Qeq_refl v)). }
  split; [|split; [|split; [|split]]].
  - unfold sparkPath. destruct (sparkPoints_total vals w h) as [pts [E _]].
    rewrite E. eexists. reflexivity.
  - apply sparkPoints_total.
  - reflexivity.
  - exact Hsingle.
  - destruct Hsingle as [x [y [E [Hx Hy]]]].
    unfold sparkPath. rewrite E. cbn [mapi join]. unfold command.
    cbn [fst snd Nat.eqb].
    rewrite (toFixed_comp x 0 1 Hx), (toFixed_comp y h 1 Hy). reflexivity.
Qed.

Lemma mapi_mapi {A B C} (f : A -> nat -> B) (g : B -> nat -> C) l :
  forall i, mapi g i (mapi f i l) = mapi (fun a j => g (f a j) j) i l.
Proof. induction l as [|a l IH]; intros i; cbn; [reflexivity | now rewrite IH]. Qed.

Lemma mapi_ext_in {A B} (f g : A -> nat -> B) l :
  (forall a i, In a l -> f a i = g a i) -> forall i, mapi f i l = mapi g i l.
Proof.
  induction l as [|a l IH]; intros H i; cbn; [reflexivity|].
  rewrite (H a i) by now left.
  rewrite IH; [reflexivity|]. intros b j Hb. apply H. now right.
Qed.

(** The divisor of the abscissa is [length - 1] itself from two values on. *)
Lemma orOne_pred n : (2 <= n)%nat -> orOne (ofNat n - 1) = ofNat n - 1.
Proof.
  intros Hn. unfold orOne. destruct (Qeq_bool (ofNat n - 1) 0) eqn:E; [|reflexivity].
  apply Qeq_bool_iff in E. exfalso.
  assert (H : inject_Z 2 <= ofNat n).
  { unfold ofNat. rewrite <- Zle_Qle. lia. }
  change (inject_Z 2) with 2 in H. lra.
Qed.

(** C10: when the values, two or more, are all equal, every point the
    builder emits has [y = h], the bottom edge of the box, and its command
    prints [h]: the path [sparkPath] returns is, for each index [i], the
    letter M (first) or L, the abscissa [i / (length - 1) * w] and the
    ordinate [h], both to one place, joined by spaces. *)
Theorem C10_flat_line_at_bottom (vals : list Q) (v w h : Q) :
  (2 <= List.length vals)%nat ->
  Forall (fun x => x == v) vals ->
  (exists pts,
     sparkPoints vals w h = Some pts /\
     List.length pts = List.length vals /\
     Forall (fun p => snd p == h) pts /\
     Forall (fun p => toFixed (snd p) 1 = toFixed h 1) pts) /\
  sparkPath vals w h
  = Some (join " "
            (mapi (fun _ i =>
                     (if Nat.eqb i 0 then "M" else "L") ++ " "
                       ++ toFixed (ofNat i / (ofNat (List.length vals) - 1) * w) 1
                       ++ " " ++ toFixed h 1)%string
               0 vals)).
Proof.
  intros Hlen Hall.
  assert (Hy : forall a i, In a vals ->
            match vals with
            | [] => True
            | v0 :: vs =>
                snd (pointOf (List.length vals) (fold_left Qmin vs v0)
                       (rangeOf v0 vs) w h a i) == h
            end).
  { destruct vals as [|v0 vs]; [intros; exact I|].
    inversion Hall as [|x l Hv0 Hvs]; subst.
    assert (Hmax : fold_left Qmax vs v0 == v) by (now apply fold_max_flat).
    assert (Hmin : fold_left Qmin vs v0 == v) by (now apply fold_min_flat).
    intros a i Ha. rewrite Forall_forall in Hall. specialize (Hall a Ha).
    unfold rangeOf, pointOf, orOne. cbn [snd].
    assert (Hz : Qeq_bool (fold_left Qmax vs v0 - fold_left Qmin vs v0) 0 = true).
    { apply Qeq_eq_bool. rewrite Hmax, Hmin. ring. }
    rewrite Hz, Hmin, Hall. unfold Qdiv. ring. }
  unfold sparkPath. rewrite sparkPoints_plots.
  destruct vals as [|v0 vs]; [cbn in Hlen; lia|].
  split.
  - eexists. split; [reflexivity|]. split; [apply mapi_length|].
    split.
    + apply Forall_mapi. exact Hy.
    + apply Forall_mapi. intros a i Ha. apply toFixed_comp, Hy, Ha.
  - f_equal. f_equal. rewrite mapi_mapi. apply mapi_ext_in.
    intros a i Ha. unfold command.
    rewrite (toFixed_comp _ h 1 (Hy a i Ha)).
    unfold pointOf. cbn [fst]. rewrite (orOne_pred _ Hlen). reflexivity.
Qed.

(** C10, witness: three equal values. *)
Lemma C10_flat_line_at_bottom_witness :
  (2 <= List.length flatValues)%nat /\
  Forall (fun x => x == 7.4) flatValues /\
  (exists pts,
     sparkPoints flatValues 140 36 = Some pts /\
     List.length pts = List.length flatValues /\
     Forall (fun p => snd p == 36) pts /\
     Forall (fun p => toFixed (snd p) 1 = toFixed 36 1) pts) /\
  sparkPath flatValues 140 36
  = Some (join " "
            (mapi (fun _ i =>
                     (if Nat.eqb i 0 then "M" else "L") ++ " "
                       ++ toFixed (ofNat i / (ofNat (List.length flatValues) - 1) * 140) 1
                       ++ " " ++ toFixed 36 1)%string
               0 flatValues)).
Proof.
  assert (H1 : (2 <= List.length flatValues)%nat) by (cbn; lia).
  assert (H2 : Forall (fun x => x == 7.4) flatValues)
    by (repeat constructor).
  split; [exact H1|]. split; [exact H2|].
  exact (C10_flat_line_at_bottom flatValues 7.4 140 36 H1 H2).
Defined.

Example sparkPath_flat :
  sparkPath flatValues 140 36
  = Some "M 0.0 36.0 L 70.0 36.0 L 140.0 36.0"%string.
Proof. vm_compute. reflexivity. Qed.

Example sparkPath_123 :
  sparkPath [1; 2; 3] 100 10 = Some "M 0.0 10.0 L 50.0 5.0 L 100.0 0.0"%string.
Proof. vm_compute. reflexivity. Qed.

(* ================================================================= *)
(** * Further properties *)

(** Worlds for the witnesses. *)
Lemma stillWorld_rng_ok : rng_ok stillWorld.
Proof. apply replay_rng_ok; reflexivity. Qed.

Lemma stillWorld_clock_ok : clock_ok stillWorld.
Proof. intros k. unfold stillWorld, replay. cbn [clock]. destruct k; cbn; lia. Qed.

(** ** The other channels of a tick *)

Lemma roundTo_comp v v' d : v == v' -> roundTo v d = roundTo v' d.
Proof.
  intros E. unfold roundTo.
  rewrite (fixedDigits_comp v v' d E).
  rewrite (Qlt_bool_comp v v' 0 0 E (Qeq_refl 0)). reflexivity.
Qed.

Lemma clamp_comp v v' a b : v == v' -> clamp v a b == clamp v' a b.
Proof. intros E. unfold clamp. now rewrite E. Qed.

Lemma nextSample_channels last :
  post (nextSample last)
    (fun s => temperature_rule (temperature last) (temperature s) /\
              level_rule (waterLevelPercent last) (waterLevelPercent s)).
Proof.
  unfold nextSample.
  draw target Htarget. draw noise Hnoise. draw dt Hdt. draw r1 Hr1.
  apply post_bind with (P := fun _ : Q => True).
  { destruct (Qlt_bool r1 0.015); [draw spike Hspike|]; apply post_ret; exact I. }
  intros nextTurb _.
  draw ttarget Httarget. draw tnoise Htnoise. draw drop Hdrop. draw r2 Hr2.
  apply post_bind with
    (P := fun l => exists gain, (0 <= gain /\ gain <= 0.3) /\
                     l == waterLevelPercent last - drop + gain).
  { destruct (Qlt_bool r2 0.06).
    - draw up Hup. apply post_ret. exists up. split; [lra | reflexivity].
    - apply post_ret. exists 0. split; [lra | ring]. }
  intros nextLevel [gain [Hgain El]].
  draw r3 Hr3.
  apply post_bind with
    (P := fun l => (r3 < 0.02 /\
                    exists x, (78 <= x /\ x <= 100) /\ l = clamp x 0 100)
                   \/ (0.02 <= r3 /\ l = nextLevel)).
  { destruct (Qlt_bool r3 0.02) eqn:E.
    - apply Qlt_bool_iff in E. draw x Hx. apply post_ret. left.
      split; [exact E|]. exists x. split; [exact Hx | reflexivity].
    - apply Qlt_bool_false in E. apply post_ret. right. now split. }
  intros nextLevel' Hl'. draw now Hnow. apply post_ret.
  cbn [temperature waterLevelPercent]. split.
  - exists ttarget, tnoise. repeat split; tauto.
  - exists drop, gain, r3. split; [exact Hdrop|]. split; [exact Hgain|].
    split; [exact Hr3|].
    destruct Hl' as [[Hr [x [Hx ->]]] | [Hr ->]]; [left | right].
    + split; [exact Hr|]. exists x. now split.
    + split; [exact Hr|]. apply roundTo_comp, clamp_comp, El.
Qed.


(** From a temperature at or below 35, a tick stores one at or below 35. *)
Lemma temperature_rule_cool prev next :
  temperature_rule prev next -> prev <= 35 -> next <= 35.
Proof.
  intros [target [noise [[T1 T2] [[N1 N2] E]]]] Hprev. subst next.
  destruct (clamp_bounds (approach prev target 0.03 + noise) 15 45) as [L U]; [lra|].
  assert (U' : clamp (approach prev target 0.03 + noise) 15 45 <= 35).
  { unfold clamp. apply Q.max_lub; [lra|].
    eapply Qle_trans; [apply Q.le_min_r|]. unfold approach. lra. }
  set (v := clamp _ _ _) in *. clearbody v.
  round_bounds roundTo1_bounds v 150%Z 350%Z. lra.
Qed.


(** ** Rounding *)

Lemma pow10_Qpos d : 0 < inject_Z (10 ^ Z.of_nat d).
Proof. change 0 with (inject_Z 0). rewrite <- Zlt_Qlt. apply pow10_pos. Qed.

Lemma fixedDigits_nonneg v d : (0 <= fixedDigits v d)%Z.
Proof.
  unfold fixedDigits. rewrite <- (Qfloor_Z 0). apply Qfloor_resp_le.
  pose proof (Qabs_nonneg v) as H. pose proof (pow10_Qpos d) as HP.
  assert (0 <= Qabs v * inject_Z (10 ^ Z.of_nat d))
    by (apply Qmult_le_0_compat; lra).
  change (inject_Z 0) with 0. lra.
Qed.

(** The digits of [toFixed] are within half a unit of [|v| * 10^d]. *)
Lemma fixedDigits_near v d :
  Qabs v * inject_Z (10 ^ Z.of_nat d) - 0.5 < inject_Z (fixedDigits v d) /\
  inject_Z (fixedDigits v d) <= Qabs v * inject_Z (10 ^ Z.of_nat d) + 0.5.
Proof.
  unfold fixedDigits.
  set (t := Qabs v * inject_Z (10 ^ Z.of_nat d)). clearbody t.
  pose proof (Qfloor_le (t + 0.5)) as H1.
  pose proof (Qlt_floor (t + 0.5)) as H2.
  rewrite inject_Z_plus in H2. change (inject_Z 1) with 1 in H2.
  split; lra.
Qed.

Lemma roundTo_scaled v d :
  roundTo v d * inject_Z (10 ^ Z.of_nat d)
  == (if Qlt_bool v 0 then -1 else 1) * inject_Z (fixedDigits v d).
Proof.
  pose proof (pow10_Qpos d) as HP. unfold roundTo.
  destruct (Qlt_bool v 0); field; lra.
Qed.

Lemma Qabs_signed v : Qabs v == (if Qlt_bool v 0 then -1 else 1) * v.
Proof.
  destruct (Qlt_bool v 0) eqn:E.
  - apply Qlt_bool_iff in E. rewrite Qabs_neg by lra. ring.
  - apply Qlt_bool_false in E. rewrite Qabs_pos by lra. ring.
Qed.

(** Rounding to one place moves a number by at most 0.05, to two places
    by at most 0.005. *)
Lemma round_near v d :
  - 0.5 <= (roundTo v d - v) * inject_Z (10 ^ Z.of_nat d) /\
  (roundTo v d - v) * inject_Z (10 ^ Z.of_nat d) <= 0.5.
Proof.
  pose proof (pow10_Qpos d) as HP.
  pose proof (fixedDigits_near v d) as [H1 H2].
  pose proof (roundTo_scaled v d) as Hs.
  pose proof (Qabs_signed v) as Ha.
  set (P := inject_Z (10 ^ Z.of_nat d)) in *.
  set (n := inject_Z (fixedDigits v d)) in *.
  setoid_replace ((roundTo v d - v) * P) with (roundTo v d * P - v * P) by ring.
  rewrite Hs. rewrite Ha in H1, H2. clearbody P n.
  destruct (Qlt_bool v 0).
  - setoid_replace (-1 * v * P) with (- (v * P)) in H1 by ring.
    setoid_replace (-1 * v * P) with (- (v * P)) in H2 by ring.
    set (t := v * P) in *. clearbody t. split; lra.
  - setoid_replace (1 * v * P) with (v * P) in H1 by ring.
    setoid_replace (1 * v * P) with (v * P) in H2 by ring.
    set (t := v * P) in *. clearbody t. split; lra.
Qed.


Lemma roundTo_hundredth v : v - 0.005 <= roundTo v 2 /\ roundTo v 2 <= v + 0.005.
Proof.
  pose proof (round_near v 2) as [H1 H2].
  change (inject_Z (10 ^ Z.of_nat 2)) with 100 in H1, H2. split; lra.
Qed.


Lemma Qfloor_eq (x : Q) (n : Z) :
  inject_Z n <= x -> x < inject_Z (n + 1) -> Qfloor x = n.
Proof.
  intros H1 H2.
  assert (L : (n <= Qfloor x)%Z).
  { rewrite <- (Qfloor_Z n). now apply Qfloor_resp_le. }
  assert (U : (Qfloor x < n + 1)%Z).
  { rewrite Zlt_Qlt. eapply Qle_lt_trans; [apply Qfloor_le | exact H2]. }
  lia.
Qed.

Lemma Qabs_roundTo v d :
  Qabs (roundTo v d) * inject_Z (10 ^ Z.of_nat d) == inject_Z (fixedDigits v d).
Proof.
  pose proof (pow10_Qpos d) as HP.
  pose proof (fixedDigits_nonneg v d) as Hn. rewrite Zle_Qle in Hn.
  change (inject_Z 0) with 0 in Hn.
  assert (Hq : 0 <= inject_Z (fixedDigits v d) / inject_Z (10 ^ Z.of_nat d)).
  { apply Qle_shift_div_l; [exact HP | lra]. }
  unfold roundTo. destruct (Qlt_bool v 0).
  - rewrite Qabs_opp, Qabs_pos by exact Hq. field. lra.
  - rewrite Qabs_pos by exact Hq. field. lra.
Qed.

(** Rounding what is already rounded changes no digit. *)
Lemma fixedDigits_roundTo v d : fixedDigits (roundTo v d) d = fixedDigits v d.
Proof.
  unfold fixedDigits at 1. apply Qfloor_eq.
  - rewrite Qabs_roundTo. lra.
  - rewrite Qabs_roundTo, inject_Z_plus. change (inject_Z 1) with 1. lra.
Qed.

Lemma roundTo_nonneg v d : 0 <= v -> 0 <= roundTo v d.
Proof.
  intros Hv. pose proof (pow10_Qpos d) as HP.
  pose proof (fixedDigits_nonneg v d) as Hn. rewrite Zle_Qle in Hn.
  change (inject_Z 0) with 0 in Hn.
  unfold roundTo. apply Qlt_bool_false in Hv. rewrite Hv.
  apply Qle_shift_div_l; [exact HP | lra].
Qed.

(** X15: for [v >= 0], formatting the stored number [Number(v.toFixed(d))]
    to [d] places prints the digits of [v.toFixed(d)], and rounding it
    again changes nothing: the cards show the stored values as they are. *)
Theorem stored_value_displays_unchanged (v : Q) (d : nat) :
  0 <= v ->
  format (roundTo v d) d = toFixed v d /\
  roundTo (roundTo v d) d = roundTo v d.
Proof.
  intros Hv. pose proof (roundTo_nonneg v d Hv) as Hr.
  apply Qlt_bool_false in Hv, Hr.
  split.
  - unfold format, toFixed. now rewrite fixedDigits_roundTo, Hr, Hv.
  - unfold roundTo at 1. rewrite fixedDigits_roundTo, Hr.
    unfold roundTo. now rewrite Hv.
Qed.

(** X15, witness. *)
Lemma stored_value_displays_unchanged_witness :
  0 <= 7.384 /\ format (roundTo 7.384 2) 2 = toFixed 7.384 2.
Proof.
  assert (H : 0 <= 7.384) by (vm_compute; discriminate).
  split; [exact H|].
  exact (proj1 (stored_value_displays_unchanged 7.384 2 H)).
Defined.

(** ** Clamping *)

Lemma clamp_id v a b : a <= v -> v <= b -> clamp v a b == v.
Proof.
  intros Ha Hb. unfold clamp.
  rewrite (Q.min_r b v) by exact Hb. apply Q.max_r, Ha.
Qed.

(** X11: [clamp] returns a value of [a, b] when [a <= b], leaves a value
    of that range alone, is idempotent and monotone, and returns [a] when
    the bounds are crossed ([b < a]). *)
Theorem clamp_behaviour (v v' a b : Q) :
  (a <= b -> a <= clamp v a b /\ clamp v a b <= b) /\
  (a <= v -> v <= b -> clamp v a b == v) /\
  (a <= b -> clamp (clamp v a b) a b == clamp v a b) /\
  (v <= v' -> clamp v a b <= clamp v' a b) /\
  (b < a -> clamp v a b == a).
Proof.
  split; [apply clamp_bounds|]. split; [apply clamp_id|].
  split; [|split].
  - intros Hab. destruct (clamp_bounds v a b Hab). now apply clamp_id.
  - intros Hv. unfold clamp.
    apply Q.max_le_compat_l. apply Q.min_le_compat_l. exact Hv.
  - intros Hba. unfold clamp. apply Q.max_l.
    eapply Qle_trans; [apply Q.le_min_l | lra].
Qed.

(** ** The evaluator and the tank gauge *)

Lemma alerts_shape th s :
  let st := status th s in
  alerts th s st
  = (if Level_eqb (st_pH st) bad then [pHAlert th s] else [])
      ++ (if Level_eqb (st_turbidity st) bad then [turbidityAlert th s] else [])
      ++ (if Level_eqb (st_waterLevel st) bad then [waterLevelAlert th s] else []).
Proof.
  cbv zeta. unfold alerts.
  destruct (Level_eqb (st_pH (status th s)) bad),
    (Level_eqb (st_turbidity (status th s)) bad),
    (Level_eqb (st_waterLevel (status th s)) bad); reflexivity.
Qed.

(** X16: the overall flag is true exactly when the list of alerts is
    empty, and exactly when pH, turbidity and water level are within their
    thresholds, whatever the temperature. *)
Theorem safe_iff_no_alert (th : Thresholds) (s : Sample) :
  (overallOk (status th s) = true <-> alerts th s (status th s) = []) /\
  (overallOk (status th s) = true <->
   (pH_min th <= pH s /\ pH s <= pH_max th) /\
   turbidity s <= turbidity_max th /\
   waterLevelPercent_min th <= waterLevelPercent s).
Proof.
  pose proof (alerts_shape th s) as Hshape. cbv zeta in Hshape.
  rewrite Hshape. unfold overallOk, values, status.
  cbn [forallb st_pH st_turbidity st_temperature st_waterLevel].
  destruct (Qle_bool (pH_min th) (pH s)) eqn:E1;
  destruct (Qle_bool (pH s) (pH_max th)) eqn:E2;
  destruct (Qle_bool (turbidity s) (turbidity_max th)) eqn:E3;
  destruct (Qle_bool (temperature s) (temperature_max th)) eqn:E4;
  destruct (Qle_bool (waterLevelPercent_min th) (waterLevelPercent s)) eqn:E5;
  cbn;
  try apply Qle_bool_iff in E1; try apply Qle_bool_iff in E2;
  try apply Qle_bool_iff in E3; try apply Qle_bool_iff in E5;
  try apply Qle_bool_false in E1; try apply Qle_bool_false in E2;
  try apply Qle_bool_false in E3; try apply Qle_bool_false in E5;
  (split; split; intros H; try discriminate; try reflexivity;
   try (repeat split; assumption); try (exfalso; lra)).
Qed.

(** ** The sparkline *)

Lemma mapi_nth {A B} (f : A -> nat -> B) l : forall i k,
  nth_error (mapi f i l) k = option_map (fun a => f a (i + k)%nat) (nth_error l k).
Proof.
  induction l as [|a l IH]; intros i k.
  - destruct k; reflexivity.
  - destruct k as [|k]; cbn.
    + now rewrite Nat.add_0_r.
    + rewrite IH. now rewrite Nat.add_succ_r.
Qed.

Lemma fold_max_init vs : forall a, a <= fold_left Qmax vs a.
Proof.
  induction vs as [|y vs IH]; intros a; cbn [fold_left]; [apply Qle_refl|].
  eapply Qle_trans; [apply Q.le_max_l | apply IH].
Qed.

Lemma fold_max_In vs : forall a x, In x vs -> x <= fold_left Qmax vs a.
Proof.
  induction vs as [|y vs IH]; intros a x Hx; cbn [fold_left]; [contradiction|].
  destruct Hx as [-> | Hx].
  - eapply Qle_trans; [apply Q.le_max_r | apply fold_max_init].
  - now apply IH.
Qed.

Lemma fold_max_lub vs : forall a b,
  a <= b -> (forall x, In x vs -> x <= b) -> fold_left Qmax vs a <= b.
Proof.
  induction vs as [|y vs IH]; intros a b Ha Hb; cbn [fold_left]; [exact Ha|].
  apply IH.
  - apply Q.max_lub; [exact Ha | apply Hb; now left].
  - intros x Hx. apply Hb. now right.
Qed.

Lemma fold_min_init vs : forall a, fold_left Qmin vs a <= a.
Proof.
  induction vs as [|y vs IH]; intros a; cbn [fold_left]; [apply Qle_refl|].
  eapply Qle_trans; [apply IH | apply Q.le_min_l].
Qed.

Lemma fold_min_In vs : forall a x, In x vs -> fold_left Qmin vs a <= x.
Proof.
  induction vs as [|y vs IH]; intros a x Hx; cbn [fold_left]; [contradiction|].
  destruct Hx as [-> | Hx].
  - eapply Qle_trans; [apply fold_min_init | apply Q.le_min_r].
  - now apply IH.
Qed.

Lemma fold_min_glb vs : forall a b,
  b <= a -> (forall x, In x vs -> b <= x) -> b <= fold_left Qmin vs a.
Proof.
  induction vs as [|y vs IH]; intros a b Ha Hb; cbn [fold_left]; [exact Ha|].
  apply IH.
  - apply Q.min_glb; [exact Ha | apply Hb; now left].
  - intros x Hx. apply Hb. now right.
Qed.

(** The extremes [sparkPath] computes bound every value. *)
Lemma extremes_bound v0 vs x :
  In x (v0 :: vs) ->
  fold_left Qmin vs v0 <= x /\ x <= fold_left Qmax vs v0.
Proof.
  intros [<- | Hx].
  - split; [apply fold_min_init | apply fold_max_init].
  - split; [now apply fold_min_In | now apply fold_max_In].
Qed.

Lemma orOne_pos d : 0 <= d -> 0 < orOne d.
Proof.
  intros Hd. unfold orOne. destruct (Qeq_bool d 0) eqn:E; [reflexivity|].
  apply Qeq_bool_neq in E. destruct (Qlt_le_dec 0 d) as [H | H]; [exact H|].
  exfalso. apply E. lra.
Qed.

(** A quotient by a guarded divisor is a fraction of one. *)
Lemma unit_fraction a d :
  0 <= a -> a <= d -> 0 <= a / orOne d /\ a / orOne d <= 1.
Proof.
  intros Ha Had.
  assert (Hpos : 0 < orOne d) by (apply orOne_pos; lra).
  split.
  - apply Qle_shift_div_l; [exact Hpos | lra].
  - apply Qle_shift_div_r; [exact Hpos|].
    unfold orOne in *. destruct (Qeq_bool d 0) eqn:E.
    + apply Qeq_bool_eq in E. lra.
    + lra.
Qed.

Lemma ofNat_le j k : (j <= k)%nat -> ofNat j <= ofNat k.
Proof. intros H. unfold ofNat. rewrite <- Zle_Qle. lia. Qed.

Lemma ofNat_lt j k : (j < k)%nat -> ofNat j < ofNat k.
Proof. intros H. unfold ofNat. rewrite <- Zlt_Qlt. lia. Qed.

Lemma ofNat_pred k n : (k < n)%nat -> ofNat k <= ofNat n - 1.
Proof.
  intros H. unfold ofNat.
  setoid_replace (inject_Z (Z.of_nat n) - 1) with (inject_Z (Z.of_nat n - 1)).
  - rewrite <- Zle_Qle. lia.
  - unfold Zminus. rewrite inject_Z_plus. reflexivity.
Qed.

Lemma Some_eq {A} (a b : A) : Some a = Some b -> a = b.
Proof. intros H. now injection H. Qed.

Lemma sparkPoints_cons v0 vs w h :
  sparkPoints (v0 :: vs) w h
  = Some (mapi (pointOf (List.length (v0 :: vs)) (fold_left Qmin vs v0)
                  (rangeOf v0 vs) w h) 0 (v0 :: vs)).
Proof. apply sparkPoints_plots. Qed.

(** What [sparkPoints] yields, point by point. *)
Lemma sparkPoints_nth v0 vs w h pts k p :
  sparkPoints (v0 :: vs) w h = Some pts ->
  nth_error pts k = Some p ->
  exists v, nth_error (v0 :: vs) k = Some v /\
            p = pointOf (List.length (v0 :: vs)) (fold_left Qmin vs v0)
                  (rangeOf v0 vs) w h v k.
Proof.
  intros E Hp. rewrite sparkPoints_cons in E.
  apply Some_eq in E. subst pts. rewrite mapi_nth in Hp.
  destruct (nth_error (v0 :: vs) k) as [v|]; [|discriminate].
  exists v. split; [reflexivity|]. cbn in Hp. now injection Hp as <-.
Qed.

Lemma scale_unit t w : 0 <= t -> t <= 1 -> 0 <= w -> 0 <= t * w /\ t * w <= w.
Proof.
  intros H0 H1 Hw.
  assert (A : 0 <= t * w) by (apply Qmult_le_0_compat; lra).
  assert (B : 0 <= (1 - t) * w) by (apply Qmult_le_0_compat; lra).
  setoid_replace ((1 - t) * w) with (w - t * w) in B by ring.
  split; lra.
Qed.

(** X18: for a box of width and height at least 0, every point the
    path builder plots has [0 <= x <= w] and [0 <= y <= h]. *)
Theorem sparkline_inside_box (vals : list Q) (w h : Q) (pts : list (Q * Q)) :
  0 <= w -> 0 <= h ->
  sparkPoints vals w h = Some pts ->
  Forall (fun p => (0 <= fst p /\ fst p <= w) /\ (0 <= snd p /\ snd p <= h)) pts.
Proof.
  intros Hw Hh E. destruct vals as [|v0 vs].
  - cbn in E. injection E as <-. constructor.
  - apply Forall_forall. intros p Hp.
    apply In_nth_error in Hp. destruct Hp as [k Hk].
    destruct (sparkPoints_nth v0 vs w h pts k p E Hk) as [v [Hv ->]].
    assert (Hlt : (k < List.length (v0 :: vs))%nat).
    { apply nth_error_Some. rewrite Hv. discriminate. }
    apply nth_error_In in Hv.
    destruct (extremes_bound v0 vs v Hv) as [Hmin Hmax].
    unfold pointOf, rangeOf. cbn [fst snd].
    destruct (unit_fraction (ofNat k) (ofNat (List.length (v0 :: vs)) - 1))
      as [X0 X1].
    { change 0 with (ofNat 0). apply ofNat_le. lia. }
    { now apply ofNat_pred. }
    destruct (unit_fraction (v - fold_left Qmin vs v0)
                (fold_left Qmax vs v0 - fold_left Qmin vs v0)) as [Y0 Y1];
      [lra | lra |].
    split; [now apply scale_unit|].
    destruct (scale_unit _ h Y0 Y1 Hh) as [S0 S1].
    split; lra.
Qed.

(** X18, witness. *)
Lemma sparkline_inside_box_witness :
  0 <= 140 /\ 0 <= 36 /\
  sparkPoints risingValues 140 36 = Some risingPoints /\
  Forall (fun p => (0 <= fst p /\ fst p <= 140) /\ (0 <= snd p /\ snd p <= 36))
    risingPoints.
Proof.
  assert (Hw : 0 <= 140) by (vm_compute; discriminate).
  assert (Hh : 0 <= 36) by (vm_compute; discriminate).
  assert (E : sparkPoints risingValues 140 36 = Some risingPoints) by reflexivity.
  split; [exact Hw|]. split; [exact Hh|]. split; [exact E|].
  exact (sparkline_inside_box risingValues 140 36 risingPoints Hw Hh E).
Defined.

Lemma orOne_id d : ~ d == 0 -> orOne d = d.
Proof.
  intros H. unfold orOne. destruct (Qeq_bool d 0) eqn:E; [|reflexivity].
  apply Qeq_bool_eq in E. contradiction.
Qed.

(** The abscissa of the point of index [k] among [n >= 2] values. *)
Lemma pointOf_x n min range w h v k :
  (2 <= n)%nat ->
  fst (pointOf n min range w h v k) == ofNat k / (ofNat n - 1) * w.
Proof.
  intros Hn. unfold pointOf. cbn [fst].
  rewrite orOne_id; [reflexivity|].
  pose proof (ofNat_pred 1 n Hn) as H. change (ofNat 1) with 1 in H.
  intros E. lra.
Qed.

(** X19: for two values or more, the first point is at [x = 0], the
    last at [x = w], and [x] grows with the index (strictly when
    [w > 0]). *)
Theorem sparkline_abscissas (vals : list Q) (w h : Q) (pts : list (Q * Q)) :
  (2 <= List.length vals)%nat ->
  sparkPoints vals w h = Some pts ->
  (exists p, nth_error pts 0 = Some p /\ fst p == 0) /\
  (exists p, lastOf pts = Some p /\ fst p == w) /\
  (forall j k pj pk,
     (j < k)%nat -> nth_error pts j = Some pj -> nth_error pts k = Some pk ->
     (0 < w -> fst pj < fst pk) /\ (0 <= w -> fst pj <= fst pk)).
Proof.
  intros Hn E. destruct vals as [|v0 vs]; [cbn in Hn; lia|].
  set (n := List.length (v0 :: vs)) in *.
  assert (Hlen : List.length pts = n).
  { destruct (sparkPoints_total (v0 :: vs) w h) as [pts' [E' Hl]].
    rewrite E in E'. apply Some_eq in E'. now subst pts'. }
  assert (Hd : 0 < ofNat n - 1).
  { pose proof (ofNat_pred 1 n Hn) as H. change (ofNat 1) with 1 in H.
    pose proof (ofNat_lt 1 n) as H'. change (ofNat 1) with 1 in H'.
    assert (1 < ofNat n) by (apply H'; lia). lra. }
  assert (Hx : forall k p, nth_error pts k = Some p ->
                 fst p == ofNat k / (ofNat n - 1) * w).
  { intros k p Hk.
    destruct (sparkPoints_nth v0 vs w h pts k p E Hk) as [v [_ ->]].
    now apply pointOf_x. }
  split; [|split].
  - destruct (nth_error pts 0) as [p|] eqn:Hp.
    + exists p. split; [reflexivity|]. rewrite (Hx 0%nat p Hp).
      change (ofNat 0) with 0. field. lra.
    + apply nth_error_None in Hp. lia.
  - destruct (lastOf_nonempty pts) as [p Hp]; [lia|].
    exists p. split; [exact Hp|]. unfold lastOf in Hp. rewrite Hlen in Hp.
    rewrite (Hx _ p Hp).
    assert (Ek : ofNat (n - 1) == ofNat n - 1).
    { unfold ofNat. rewrite Nat2Z.inj_sub by lia.
      unfold Zminus. rewrite inject_Z_plus. reflexivity. }
    rewrite Ek. field. lra.
  - intros j k pj pk Hjk Hj Hk.
    rewrite (Hx j pj Hj), (Hx k pk Hk).
    pose proof (ofNat_lt j k Hjk) as Hlt.
    assert (Hq : ofNat j / (ofNat n - 1) < ofNat k / (ofNat n - 1)).
    { apply Qlt_shift_div_l; [exact Hd|].
      setoid_replace (ofNat j / (ofNat n - 1) * (ofNat n - 1)) with (ofNat j)
        by (field; lra).
      exact Hlt. }
    set (a := ofNat j / (ofNat n - 1)) in *.
    set (b := ofNat k / (ofNat n - 1)) in *. clearbody a b.
    split; intros Hw.
    + assert (0 < (b - a) * w) by (apply Qmult_lt_0_compat; lra).
      setoid_replace ((b - a) * w) with (b * w - a * w) in H by ring. lra.
    + assert (0 <= (b - a) * w) by (apply Qmult_le_0_compat; lra).
      setoid_replace ((b - a) * w) with (b * w - a * w) in H by ring. lra.
Qed.

(** X19, witness. *)
Lemma sparkline_abscissas_witness :
  (2 <= List.length risingValues)%nat /\
  sparkPoints risingValues 140 36 = Some risingPoints /\
  exists p, lastOf risingPoints = Some p /\ fst p == 140.
Proof.
  assert (Hn : (2 <= List.length risingValues)%nat) by (cbn; lia).
  assert (E : sparkPoints risingValues 140 36 = Some risingPoints) by reflexivity.
  split; [exact Hn|]. split; [exact E|].
  exact (proj1 (proj2 (sparkline_abscissas risingValues 140 36 risingPoints Hn E))).
Defined.

(** The ordinate of a value. *)
Lemma pointOf_y n min range w h v k :
  snd (pointOf n min range w h v k) == h - (v - min) / range * h.
Proof. reflexivity. Qed.

(** X20: for a height of at least 0, a larger value is drawn at a
    smaller or equal [y]; when the values are not all equal, a smallest one
    is drawn at [y = h] and a largest one at [y = 0]. *)
Theorem sparkline_ordinates (vals : list Q) (w h : Q) (pts : list (Q * Q))
    (j k : nat) (vj vk : Q) (pj pk : Q * Q) :
  0 <= h ->
  sparkPoints vals w h = Some pts ->
  nth_error vals j = Some vj -> nth_error pts j = Some pj ->
  nth_error vals k = Some vk -> nth_error pts k = Some pk ->
  (vj <= vk -> snd pk <= snd pj) /\
  (vj < vk ->
   (forall x, In x vals -> vj <= x /\ x <= vk) ->
   snd pj == h /\ snd pk == 0).
Proof.
  intros Hh E Hvj Hpj Hvk Hpk.
  destruct vals as [|v0 vs]; [destruct j; discriminate|].
  destruct (sparkPoints_nth v0 vs w h pts j pj E Hpj) as [vj' [Hvj' ->]].
  destruct (sparkPoints_nth v0 vs w h pts k pk E Hpk) as [vk' [Hvk' ->]].
  rewrite Hvj in Hvj'. apply Some_eq in Hvj'. subst vj'.
  rewrite Hvk in Hvk'. apply Some_eq in Hvk'. subst vk'.
  pose proof (nth_error_In _ _ Hvj) as Ij.
  pose proof (nth_error_In _ _ Hvk) as Ik.
  destruct (extremes_bound v0 vs vj Ij) as [Lj Uj].
  destruct (extremes_bound v0 vs vk Ik) as [Lk Uk].
  set (mn := fold_left Qmin vs v0) in *.
  set (mx := fold_left Qmax vs v0) in *.
  assert (Hr : 0 < rangeOf v0 vs).
  { unfold rangeOf. fold mn mx. apply orOne_pos. lra. }
  unfold pointOf. cbn [snd]. split.
  - intros Hle.
    assert (Hq : (vj - mn) / rangeOf v0 vs <= (vk - mn) / rangeOf v0 vs).
    { apply Qle_shift_div_l; [exact Hr|].
      setoid_replace ((vj - mn) / rangeOf v0 vs * rangeOf v0 vs) with (vj - mn)
        by (field; lra).
      lra. }
    set (a := (vj - mn) / rangeOf v0 vs) in *.
    set (b := (vk - mn) / rangeOf v0 vs) in *. clearbody a b.
    assert (0 <= (b - a) * h) by (apply Qmult_le_0_compat; lra).
    setoid_replace ((b - a) * h) with (b * h - a * h) in H by ring. lra.
  - intros Hlt Hall.
    assert (Emn : mn == vj).
    { apply Qle_antisym; [exact Lj|]. subst mn. apply fold_min_glb.
      - apply (Hall v0). now left.
      - intros x Hx. apply (Hall x). now right. }
    assert (Emx : mx == vk).
    { apply Qle_antisym; [|exact Uk]. subst mx. apply fold_max_lub.
      - apply (Hall v0). now left.
      - intros x Hx. apply (Hall x). now right. }
    assert (Er : rangeOf v0 vs == vk - vj).
    { unfold rangeOf. fold mn mx. rewrite orOne_id; [now rewrite Emn, Emx|].
      rewrite Emn, Emx. intros H. lra. }
    split.
    + rewrite Emn. field. lra.
    + rewrite Er, Emn. field. lra.
Qed.

(** X20, witness. *)
Lemma sparkline_ordinates_witness :
  0 <= 36 /\
  sparkPoints risingValues 140 36 = Some risingPoints /\
  exists pj pk,
    nth_error risingPoints 0 = Some pj /\ nth_error risingPoints 2 = Some pk /\
    snd pk <= snd pj.
Proof.
  assert (Hh : 0 <= 36) by (vm_compute; discriminate).
  assert (E : sparkPoints risingValues 140 36 = Some risingPoints) by reflexivity.
  assert (Hle : 1 <= 3) by (vm_compute; discriminate).
  split; [exact Hh|]. split; [exact E|].
  eexists. eexists. split; [reflexivity|]. split; [reflexivity|].
  exact (proj1 (sparkline_ordinates risingValues 140 36 risingPoints 0 2 1 3 _ _
                  Hh E eq_refl eq_refl eq_refl eq_refl) Hle).
Defined.

(** ** What a render draws *)

Lemma sparkPath_some vals w h : exists path, sparkPath vals w h = Some path.
Proof.
  unfold sparkPath. destruct (sparkPoints_total vals w h) as [pts [E _]].
  rewrite E. eexists. reflexivity.
Qed.

(** X21: the six paths of a render are all built without a division
    by zero, whatever the history, and are all empty for the empty
    history. *)
Theorem render_sparklines (th : Thresholds) (app : App) :
  (exists p1 p2 p3 p4 p5 p6,
     v_sparks (render th app)
     = [Some p1; Some p2; Some p3; Some p4; Some p5; Some p6]) /\
  (history app = [] ->
   v_sparks (render th app)
   = [Some ""; Some ""; Some ""; Some ""; Some ""; Some ""]%string).
Proof.
  split.
  - unfold render. cbn [v_sparks].
    destruct (sparkPath_some (map pH (history app)) 140 36) as [p1 ->].
    destruct (sparkPath_some (map turbidity (history app)) 140 36) as [p2 ->].
    destruct (sparkPath_some (map temperature (history app)) 140 36) as [p3 ->].
    destruct (sparkPath_some (map pH (history app)) 300 80) as [p4 ->].
    destruct (sparkPath_some (map turbidity (history app)) 300 80) as [p5 ->].
    destruct (sparkPath_some (map temperature (history app)) 300 80) as [p6 ->].
    now exists p1, p2, p3, p4, p5, p6.
  - intros E. unfold render. rewrite E. reflexivity.
Qed.

(** ** Events *)

Lemma handle_inStep captured app e w app' :
  e <> ForceRefillClick ->
  fst (handle captured app e w) = Some app' ->
  inStep app -> inStep app'.
Proof.
  intros He E Hin. pose proof (handle_shape captured app e w) as H.
  rewrite E in H. destruct e; cbn [handled] in H.
  - destruct H as [nextPoint [_ H]]. apply Some_eq in H. subst app'.
    unfold inStep. cbn [history current].
    apply lastOf_sliceLast_push. unfold HISTORY_POINTS. lia.
  - contradiction.
  - apply Some_eq in H. subst app'. exact Hin.
Qed.

Lemma run_inStep captured es : forall app w app',
  noRefill es ->
  fst (run captured app es w) = Some app' ->
  inStep app -> inStep app'.
Proof.
  induction es as [|e es IH]; intros app w app' Hno E Hin; cbn [run] in E.
  - apply Some_eq in E. now subst app'.
  - inversion Hno as [|e' es' He Hes]; subst. unfold bind in E.
    destruct (handle captured app e w) as [[app1|] w1] eqn:Eh; cbn in E.
    + apply (IH app1 w1 app' Hes E).
      apply (handle_inStep captured app e w app1 He); [now rewrite Eh | exact Hin].
    + discriminate.
Qed.

Lemma mount_inStep app w : inStep (fst (mount app w)).
Proof.
  pose proof (proj1 (seed_est anyWorld anySample (fun _ _ => always_trivial _)
                       (current app) w I)) as [Hlen _].
  unfold mount, bind, ret. destruct (seed (current app) w) as [h w'].
  cbn [fst] in *. unfold inStep. cbn [history current].
  destruct (lastOf_nonempty h) as [s Hs].
  { rewrite Hlen. unfold HISTORY_POINTS. lia. }
  now rewrite Hs.
Qed.

(** X22: after the mount effect and any sequence of ticks and view
    clicks, [current] is the last entry of the history. *)
Theorem current_is_last_entry (es : list Event) (w : World) :
  noRefill es ->
  exists app, fst (session es w) = Some app /\
              lastOf (history app) = Some (current app).
Proof.
  intros Hno. destruct (session_full es w) as [app [E _]].
  exists app. split; [exact E|].
  unfold session, bind in E.
  destruct (dateNow w) as [t0 w0]. 
  pose proof (mount_inStep (initialApp t0) w0) as Hm.
  destruct (mount (initialApp t0) w0) as [app1 w1]. cbn [fst] in Hm.
  exact (run_inStep _ es app1 w1 app Hno E Hm).
Qed.

(** X22, witness. *)
Lemma current_is_last_entry_witness :
  noRefill [Timer; ToggleModeClick; Timer] /\
  exists app,
    fst (session [Timer; ToggleModeClick; Timer] stillWorld) = Some app /\
    lastOf (history app) = Some (current app).
Proof.
  assert (H : noRefill [Timer; ToggleModeClick; Timer])
    by (repeat constructor; discriminate).
  split; [exact H|].
  exact (current_is_last_entry [Timer; ToggleModeClick; Timer] stillWorld H).
Defined.

(** X17: when the low-level threshold is at most 30, a bad water level
    status comes with the red tank background, and any other background
    with an ok status; the fill height is in [0, 100] and is the level
    itself when the level is in [0, 100]. *)
Theorem tank_matches_level (th : Thresholds) (s : Sample) :
  waterLevelPercent_min th <= 30 ->
  (st_waterLevel (status th s) = bad -> tankBackground s = red) /\
  (tankBackground s <> red -> st_waterLevel (status th s) = ok) /\
  (0 <= waterLevelPercent s -> waterLevelPercent s <= 100 ->
   tankHeight s == waterLevelPercent s) /\
  (0 <= tankHeight s /\ tankHeight s <= 100).
Proof.
  intros Hth.
  assert (A : st_waterLevel (status th s) = bad -> tankBackground s = red).
  { unfold status, tankBackground. cbn [st_waterLevel].
    destruct (Qle_bool (waterLevelPercent_min th) (waterLevelPercent s)) eqn:E;
      [discriminate|].
    apply Qle_bool_false in E. intros _.
    assert (H60 : Qlt_bool 60 (waterLevelPercent s) = false)
      by (apply Qlt_bool_false; lra).
    assert (H30 : Qlt_bool 30 (waterLevelPercent s) = false)
      by (apply Qlt_bool_false; lra).
    now rewrite H60, H30. }
  split; [exact A|]. split; [|split].
  - intros Hred. destruct (st_waterLevel (status th s)) eqn:E.
    + reflexivity.
    + unfold status in E. cbn [st_waterLevel] in E.
      destruct (Qle_bool _ _) in E; discriminate.
    + exfalso. apply Hred, A. reflexivity.
  - intros H0 H100. unfold tankHeight. unfold clamp.
    rewrite (Q.min_r 100 _) by exact H100. apply Q.max_r, H0.
  - apply clamp_bounds. lra.
Qed.

(** X17, witness. *)
Lemma tank_matches_level_witness :
  waterLevelPercent_min THRESHOLDS <= 30 /\
  tankHeight (initialCurrent 0) == waterLevelPercent (initialCurrent 0).
Proof.
  assert (H : waterLevelPercent_min THRESHOLDS <= 30) by (vm_compute; discriminate).
  assert (H0 : 0 <= waterLevelPercent (initialCurrent 0))
    by (vm_compute; discriminate).
  assert (H1 : waterLevelPercent (initialCurrent 0) <= 100)
    by (vm_compute; discriminate).
  split; [exact H|].
  exact (proj1 (proj2 (proj2 (tank_matches_level THRESHOLDS (initialCurrent 0) H)))
           H0 H1).
Defined.



Lemma clamp_lower v lo : lo <= v -> lo <= 100 -> Qmin lo v <= clamp v 0 100.
Proof.
  intros Hv Hlo. unfold clamp.
  eapply Qle_trans; [|apply Q.le_max_r].
  apply Q.min_glb; [eapply Qle_trans; [apply Q.le_min_l | exact Hlo] | apply Q.le_min_r].
Qed.



Lemma clamp_cases v a b :
  a <= b ->
  (v <= a /\ clamp v a b == a) \/ (b <= v /\ clamp v a b == b) \/
  ((a <= v /\ v <= b) /\ clamp v a b == v).
Proof.
  intros Hab.
  destruct (Qlt_le_dec v a) as [Hva | Hva].
  - left. split; [lra|]. unfold clamp. apply Q.max_l.
    eapply Qle_trans; [apply Q.le_min_r | lra].
  - destruct (Qlt_le_dec b v) as [Hbv | Hbv].
    + right. left. split; [lra|]. unfold clamp.
      rewrite (Q.min_l b v) by lra. apply Q.max_r, Hab.
    + right. right. split; [split; assumption|]. now apply clamp_id.
Qed.

Lemma clamp_near p x lo hi :
  0 <= p -> p <= 100 -> p - lo <= x -> x <= p + hi -> 0 <= lo -> 0 <= hi ->
  p - lo <= clamp x 0 100 /\ clamp x 0 100 <= p + hi.
Proof.
  intros H0 H1 Hlo Hhi Hl Hh.
  destruct (clamp_cases x 0 100) as [[C E] | [[C E] | [C E]]];
    [lra | | |]; rewrite E; split; lra.
Qed.



(** ** Ticks never raise a temperature warning *)

Lemma handled_cool captured app e r :
  allCool app ->
  handled (fun last s => cool last -> cool s) anyDraw captured app e r ->
  exists app', r = Some app' /\ allCool app'.
Proof.
  intros [Hlen [Hall Hcur]] Hr.
  destruct (lastOf_nonempty (history app) Hlen) as [last Hlast].
  assert (Hcl : cool last).
  { rewrite Forall_forall in Hall. apply Hall, lastOf_In, Hlast. }
  assert (Hpos : forall s, (0 < List.length
             (sliceLast HISTORY_POINTS (history app ++ [s])))%nat).
  { intros s. rewrite sliceLast_length, length_app. cbn [List.length].
    unfold HISTORY_POINTS. lia. }
  destruct e; cbn [handled] in Hr.
  - destruct Hr as [nextPoint [Hg ->]]. eexists. split; [reflexivity|].
    unfold lastOr in Hg. rewrite Hlast in Hg. specialize (Hg Hcl).
    split; [apply Hpos|]. cbn [history current].
    split; [now apply Forall_sliceLast_push | exact Hg].
  - destruct Hr as [x [now [_ ->]]]. rewrite Hlast.
    eexists. split; [reflexivity|].
    split; [apply Hpos|]. cbn [history current].
    split; [|exact Hcur]. apply Forall_sliceLast_push; [exact Hall | exact Hcl].
  - subst r. eexists. split; [reflexivity|]. now repeat split.
Qed.

Lemma nextSample_cool last :
  post (nextSample last) (fun s => cool last -> cool s).
Proof.
  eapply est_weaken; [apply nextSample_channels|].
  cbv beta. intros s [Ht _] Hc. exact (temperature_rule_cool _ _ Ht Hc).
Qed.

(** X4: from a state whose samples all have a temperature of at most 35,
    every sequence of events (ticks, forced refills, view clicks) ends in
    such a state: the temperature status is then ok, no tick raises a
    temperature warning. *)
Theorem ticks_keep_cool (captured : Sample) (app : App) (es : list Event)
    (w : World) :
  rng_ok w ->
  history app <> [] ->
  Forall (fun s => temperature s <= 35) (history app) ->
  temperature (current app) <= 35 ->
  exists app',
    fst (run captured app es w) = Some app' /\
    Forall (fun s => temperature s <= 35) (history app') /\
    temperature (current app') <= 35 /\
    st_temperature (status THRESHOLDS (current app')) = ok.
Proof.
  intros Hw Hne Hall Hcur.
  assert (Hinv : allCool app).
  { split; [|split; assumption]. destruct (history app); [contradiction | cbn; lia]. }
  destruct (proj1 (run_est rng_ok rng_ok_dateNow
                     (fun last s => cool last -> cool s) anyDraw
                     nextSample_cool
                     (est_weaken rng_ok _ _ _ post_refill_draw (fun _ _ => I))
                     allCool captured
                     (fun app e r => handled_cool captured app e r)
                     es app Hinv w Hw)) as [app' [E [_ [Hall' Hcur']]]].
  exists app'. split; [exact E|]. split; [exact Hall'|]. split; [exact Hcur'|].
  unfold status. cbn [st_temperature temperature_max THRESHOLDS].
  unfold cool in Hcur'. apply Qle_bool_iff in Hcur'. now rewrite Hcur'.
Qed.

(** X4, witness. *)
Lemma ticks_keep_cool_witness :
  rng_ok stillWorld /\ history oneSample <> [] /\
  exists app',
    fst (run (initialCurrent 0) oneSample [Timer; ForceRefillClick; Timer]
           stillWorld) = Some app' /\
    Forall (fun s => temperature s <= 35) (history app') /\
    temperature (current app') <= 35 /\
    st_temperature (status THRESHOLDS (current app')) = ok.
Proof.
  assert (Hne : history oneSample <> []) by (intros H; discriminate H).
  assert (Hall : Forall (fun s => temperature s <= 35) (history oneSample)).
  { constructor; [vm_compute; discriminate | constructor]. }
  assert (Hcur : temperature (current oneSample) <= 35)
    by (vm_compute; discriminate).
  split; [exact stillWorld_rng_ok|]. split; [exact Hne|].
  exact (ticks_keep_cool (initialCurrent 0) oneSample
           [Timer; ForceRefillClick; Timer] stillWorld
           stillWorld_rng_ok Hne Hall Hcur).
Defined.

(** ** The mount effect *)

(** X6: the mount effect leaves a history of exactly forty samples, each
    with pH in [5.5, 9.5], turbidity in [0, 12], temperature in [18, 42] and
    level in [0, 100]; [current] is the last of them and the view mode is
    untouched. *)
Theorem mount_seeds_forty (app : App) (w : World) :
  rng_ok w ->
  let app' := fst (mount app w) in
  List.length (history app') = HISTORY_POINTS /\
  lastOf (history app') = Some (current app') /\
  modeScientific app' = modeScientific app /\
  Forall (fun s =>
            (5.5 <= pH s /\ pH s <= 9.5) /\
            (0 <= turbidity s /\ turbidity s <= 12) /\
            (18 <= temperature s /\ temperature s <= 42) /\
            (0 <= waterLevelPercent s /\ waterLevelPercent s <= 100))
    (history app').
Proof.
  intros Hw app'.
  destruct (proj1 (mount_est rng_ok seeded seedStep_spec app w Hw))
    as [Hlen [Hall _]].
  fold app' in Hlen, Hall.
  split; [exact Hlen|]. split; [apply mount_inStep|].
  split; [|exact Hall].
  subst app'. unfold mount, bind, ret.
  now destruct (seed (current app) w).
Qed.

(** X6, witness. *)
Lemma mount_seeds_forty_witness :
  rng_ok stillWorld /\
  List.length (history (fst (mount (initialApp 0) stillWorld))) = HISTORY_POINTS.
Proof.
  split; [exact stillWorld_rng_ok|].
  exact (proj1 (mount_seeds_forty (initialApp 0) stillWorld stillWorld_rng_ok)).
Defined.

Lemma clock_seedLoop_spaced n : forall i prev h t,
  (i + n = HISTORY_POINTS)%nat ->
  spaced h ->
  upTo (t - (Z.of_nat HISTORY_POINTS - Z.of_nat i) * INTERVAL_MS - INTERVAL_MS) h ->
  triple (notBefore t) (seedLoop n i prev h)
    (fun r w => exists t', notBefore t' w /\ spaced r /\ upTo (t' - INTERVAL_MS) r).
Proof.
  induction n as [|n IH]; intros i prev h t Hi Hc Hu; cbn [seedLoop].
  - apply triple_ret. intros w Hw. exists t. split; [exact Hw|].
    split; [exact Hc|]. eapply Forall_impl; [|exact Hu].
    cbv beta. intros s Hs. unfold HISTORY_POINTS, INTERVAL_MS in *. lia.
  - eapply triple_bind; [apply clock_seedStep|]. cbv beta.
    intros s w [now [Hle [Hnb Ets]]].
    apply (IH (S i) s (h ++ [s]) now); [lia | | | exact Hnb].
    + unfold spaced. rewrite map_app. cbn [map].
      apply sorted_push; [exact Hc|]. rewrite Forall_map.
      eapply Forall_impl; [|exact Hu]. cbv beta. intros x Hx.
      rewrite Ets. unfold HISTORY_POINTS, INTERVAL_MS in *. lia.
    + apply Forall_app. split.
      * eapply Forall_impl; [|exact Hu]. cbv beta. intros x Hx.
        unfold HISTORY_POINTS, INTERVAL_MS in *. lia.
      * constructor; [|constructor].
        rewrite Ets. unfold HISTORY_POINTS, INTERVAL_MS in *. lia.
Qed.

(** X8: when the clock never runs backwards, the timestamps of the seeded
    history are in order and at least 1800 ms apart, and each is at least
    1800 ms before the next reading of the clock. *)
Theorem seeded_timestamps (app : App) (w : World) :
  clock_ok w ->
  let app' := fst (mount app w) in
  let w' := snd (mount app w) in
  StronglySorted (fun a b => (a + INTERVAL_MS <= b)%Z)
    (map timestamp (history app')) /\
  Forall (fun s => (timestamp s + INTERVAL_MS <= clock w' 0)%Z) (history app').
Proof.
  intros Hok.
  assert (H : triple (notBefore (clock w 0)) (mount app)
                (fun a w' => spaced (history a) /\
                   Forall (fun s => (timestamp s + INTERVAL_MS <= clock w' 0)%Z)
                     (history a))).
  { unfold mount. eapply triple_bind.
    - unfold seed.
      apply (clock_seedLoop_spaced HISTORY_POINTS 0 (current app) []
               (clock w 0)); [reflexivity | constructor | constructor].
    - cbv beta. intros h. apply triple_ret.
      intros w1 [t' [[_ Hnb] [Hs Hu]]]. cbn [history].
      split; [exact Hs|]. eapply Forall_impl; [|exact Hu].
      cbv beta. intros s Hle. lia. }
  exact (H w (conj Hok (Z.le_refl _))).
Qed.

(** X8, witness. *)
Lemma seeded_timestamps_witness :
  clock_ok stillWorld /\
  StronglySorted (fun a b => (a + INTERVAL_MS <= b)%Z)
    (map timestamp (history (fst (mount (initialApp 0) stillWorld)))).
Proof.
  split; [exact stillWorld_clock_ok|].
  exact (proj1 (seeded_timestamps (initialApp 0) stillWorld stillWorld_clock_ok)).
Defined.

(** ** A forced refill, then a tick *)

Lemma level_rule_after_refill prev next :
  level_rule prev next -> 82 <= prev -> prev <= 100 -> 78 <= next.
Proof.
  intros [drop [gain [u [Hd [Hg [Hu H]]]]]] H82 H100.
  destruct H as [[_ [x [Hx E]]] | [_ E]]; rewrite E.
  - assert (Hc : 78 <= clamp (clamp x 0 100) 0 100 /\
                 clamp (clamp x 0 100) 0 100 <= 100).
    { rewrite (clamp_comp _ x) by (apply clamp_id; lra).
      rewrite clamp_id; lra. }
    set (v := clamp (clamp x 0 100) 0 100) in *. clearbody v.
    round_bounds roundTo1_bounds v 780%Z 1000%Z. lra.
  - destruct (clamp_near prev (prev - drop + gain) 0.5 0.3) as [L U]; try lra.
    destruct (clamp_bounds (prev - drop + gain) 0 100) as [L' U']; [lra|].
    set (v := clamp (prev - drop + gain) 0 100) in *. clearbody v.
    round_bounds roundTo1_bounds v 815%Z 1000%Z. lra.
Qed.

(** X24: after a forced refill on a history that is not empty, the
    next tick stores a water level of at least 78, whose status is ok. *)
Theorem refill_then_tick_is_not_low (captured : Sample) (app : App)
    (w w2 : World) :
  rng_ok w -> rng_ok w2 ->
  history app <> [] ->
  exists app1 app2,
    fst (handle captured app ForceRefillClick w) = Some app1 /\
    fst (handle captured app1 Timer w2) = Some app2 /\
    78 <= waterLevelPercent (current app2) /\
    st_waterLevel (status THRESHOLDS (current app2)) = ok.
Proof.
  intros Hw Hw2 Hne.
  destruct (proj1 (handle_est rng_ok rng_ok_dateNow generated refillDraw
                     nextSample_spec post_refill_draw
                     captured app ForceRefillClick w Hw)) as [x [now [Hx E]]].
  destruct (lastOf_cases (history app)) as [[Hnil _] | [l' [last [_ Hlast]]]];
    [contradiction|].
  rewrite Hlast in E.
  set (app1 := mkApp (modeScientific app)
                 (sliceLast HISTORY_POINTS (history app ++ [refillOf last x now]))
                 (current app)) in *.
  exists app1.
  exists (mkApp (modeScientific app1)
            (fst (fst (tick captured (history app1) w2)))
            (snd (fst (tick captured (history app1) w2)))).
  split; [exact E|].
  assert (Hl : lastOf (history app1) = Some (refillOf last x now)).
  { subst app1. cbn [history]. apply lastOf_sliceLast_push.
    unfold HISTORY_POINTS. lia. }
  pose proof (tick_nextSample captured (history app1) w2) as Ht.
  cbv zeta in Ht. unfold lastOr in Ht. rewrite Hl in Ht.
  destruct Ht as [E1 _].
  pose proof (post_run _ _ (nextSample_channels (refillOf last x now)) w2 Hw2)
    as [_ Hrule].
  rewrite <- E1 in Hrule.
  split.
  { unfold handle, bind, ret.
    now destruct (tick captured (history app1) w2) as [[newHist nextPoint'] w3]. }
  cbn [current].
  set (nextPoint := snd (fst (tick captured (history app1) w2))) in *.
  apply refillDraw_clamp in Hx.
  assert (H78 : 78 <= waterLevelPercent nextPoint).
  { apply (level_rule_after_refill _ _ Hrule); cbn [refillOf waterLevelPercent]; lra. }
  split; [exact H78|].
  unfold status. cbn [st_waterLevel waterLevelPercent_min THRESHOLDS].
  assert (Hle : 20 <= waterLevelPercent nextPoint) by lra.
  apply Qle_bool_iff in Hle. now rewrite Hle.
Qed.

(** X24, witness. *)
Lemma refill_then_tick_is_not_low_witness :
  rng_ok stillWorld /\ history lowTank <> [] /\
  exists app1 app2,
    fst (handle (initialCurrent 0) lowTank ForceRefillClick stillWorld) = Some app1 /\
    fst (handle (initialCurrent 0) app1 Timer stillWorld) = Some app2 /\
    78 <= waterLevelPercent (current app2) /\
    st_waterLevel (status THRESHOLDS (current app2)) = ok.
Proof.
  assert (Hne : history lowTank <> []) by (intros H; discriminate H).
  split; [exact stillWorld_rng_ok|]. split; [exact Hne|].
  exact (refill_then_tick_is_not_low (initialCurrent 0) lowTank stillWorld
           stillWorld stillWorld_rng_ok stillWorld_rng_ok Hne).
Defined.

(** ** The seeding loop drifts slowly *)

Lemma clamp_near_in p x a b lo hi :
  a <= p -> p <= b -> p - lo <= x -> x <= p + hi -> 0 <= lo -> 0 <= hi ->
  p - lo <= clamp x a b /\ clamp x a b <= p + hi.
Proof.
  intros H0 H1 Hlo Hhi Hl Hh.
  destruct (clamp_cases x a b) as [[C E] | [[C E] | [C E]]];
    [lra | | |]; rewrite E; split; lra.
Qed.

Lemma post_jitter prev lo hi :
  0 <= lo -> lo <= hi ->
  post (jitter prev lo hi) (fun x => prev - hi <= x /\ x <= prev + hi).
Proof.
  intros Hlo Hhi. unfold jitter. draw m Hm. draw s Hs. apply post_ret.
  destruct (Qlt_bool s 0.5); lra.
Qed.

(** X7: from a sample within the seed ranges, one step of the seeding
    loop moves pH by at most 0.08, turbidity by at most 0.4 and temperature
    by at most 0.2; the level either jumps to a past refill in [75, 100] or
    goes down, by at most 0.6.  Each distance is stated with a margin of
    0.001, which covers the rounding of the additions in floating-point
    arithmetic. *)
Theorem seed_step_is_smooth (prev : Sample) (i : nat) (w : World) :
  rng_ok w ->
  (5.5 <= pH prev /\ pH prev <= 9.5) ->
  (0 <= turbidity prev /\ turbidity prev <= 12) ->
  (18 <= temperature prev /\ temperature prev <= 42) ->
  (0 <= waterLevelPercent prev /\ waterLevelPercent prev <= 100) ->
  let s := fst (seedStep prev i w) in
  (pH prev - 0.081 <= pH s /\ pH s <= pH prev + 0.081) /\
  (turbidity prev - 0.401 <= turbidity s /\
   turbidity s <= turbidity prev + 0.401) /\
  (temperature prev - 0.201 <= temperature s /\
   temperature s <= temperature prev + 0.201) /\
  ((75 <= waterLevelPercent s /\ waterLevelPercent s <= 100) \/
   (waterLevelPercent prev - 0.601 <= waterLevelPercent s /\
    waterLevelPercent s <= waterLevelPercent prev)).
Proof.
  intros Hw HpH Hturb Htemp Hlevel.
  assert (H : post (seedStep prev i)
    (fun s =>
      (pH prev - 0.08 <= pH s /\ pH s <= pH prev + 0.08) /\
      (turbidity prev - 0.4 <= turbidity s /\ turbidity s <= turbidity prev + 0.4) /\
      (temperature prev - 0.2 <= temperature s /\
       temperature s <= temperature prev + 0.2) /\
      ((75 <= waterLevelPercent s /\ waterLevelPercent s <= 100) \/
       (waterLevelPercent prev - 0.6 <= waterLevelPercent s /\
        waterLevelPercent s <= waterLevelPercent prev)))).
  { unfold seedStep. draw now Hnow.
    eapply post_bind; [apply post_jitter; lra|]. cbv beta. intros p Hp.
    eapply post_bind; [apply post_jitter; lra|]. cbv beta. intros tu Htu.
    eapply post_bind; [apply post_jitter; lra|]. cbv beta. intros te Hte.
    draw dl Hdl. draw r Hr.
    apply post_bind with
      (P := fun l => (75 <= l /\ l <= 100) \/
                     (waterLevelPercent prev - 0.6 <= l /\
                      l <= waterLevelPercent prev)).
    { destruct (Qlt_bool r 0.03).
      - draw x Hx. apply post_ret. left. rewrite clamp_id; lra.
      - apply post_ret. right.
        destruct (clamp_near_in (waterLevelPercent prev)
                    (waterLevelPercent prev - dl) 0 100 0.6 0); lra. }
    intros level' Hl. apply post_ret.
    cbn [pH turbidity temperature waterLevelPercent].
    split; [apply clamp_near_in; lra|].
    split; [apply clamp_near_in; lra|].
    split; [apply clamp_near_in; lra | exact Hl]. }
  pose proof (post_run _ _ H w Hw) as [[P1 P2] [[T1 T2] [[E1 E2] L]]].
  cbv zeta.
  split; [split; lra|]. split; [split; lra|]. split; [split; lra|].
  destruct L as [L | [L1 L2]]; [left; exact L | right; split; lra].
Qed.

(** X7, witness. *)
Lemma seed_step_is_smooth_witness :
  rng_ok stillWorld /\
  (pH (initialCurrent 0) - 0.081
     <= pH (fst (seedStep (initialCurrent 0) 0 stillWorld)) /\
   pH (fst (seedStep (initialCurrent 0) 0 stillWorld))
     <= pH (initialCurrent 0) + 0.081).
Proof.
  split; [exact stillWorld_rng_ok|].
  refine (proj1 (seed_step_is_smooth (initialCurrent 0) 0 stillWorld
                   stillWorld_rng_ok _ _ _ _));
    split; vm_compute; discriminate.
Defined.

(** X5: when the previous pH is above 8.5, the pH a tick stores is lower
    by at least 0.037. *)
Theorem alkaline_pH_recovers (last : Sample) (w : World) :
  rng_ok w ->
  8.5 < pH last ->
  pH (fst (nextSample last w)) <= pH last - 0.037.
Proof.
  intros Hw Hhigh.
  destruct (post_run _ _ (nextSample_spec last) w Hw) as [HpH _].
  destruct HpH as [target [noise [[T1 T2] [[N1 N2] E]]]]. rewrite E.
  set (p := pH last) in *.
  destruct (clamp_bounds (approach p target 0.08 + noise) 5.0 9.5) as [L U]; [lra|].
  assert (Hc : clamp (approach p target 0.08 + noise) 5.0 9.5 <= p - 0.042).
  { unfold clamp. apply Q.max_lub; [lra|].
    eapply Qle_trans; [apply Q.le_min_r|]. unfold approach. lra. }
  pose proof (roundTo_hundredth (clamp (approach p target 0.08 + noise) 5.0 9.5))
    as Herr.
  set (v := clamp (approach p target 0.08 + noise) 5.0 9.5) in *. clearbody v.
  lra.
Qed.

(** X5, witness. *)
Lemma alkaline_pH_recovers_witness :
  rng_ok stillWorld /\ 8.5 < pH alkaline /\
  pH (fst (nextSample alkaline stillWorld)) <= pH alkaline - 0.037.
Proof.
  assert (H : 8.5 < pH alkaline) by reflexivity.
  split; [exact stillWorld_rng_ok|]. split; [exact H|].
  exact (alkaline_pH_recovers alkaline stillWorld stillWorld_rng_ok H).
Defined.

(** ** The display mode *)

Lemma run_mode captured es : forall app w app',
  fst (run captured app es w) = Some app' ->
  modeScientific app' = xorb (modeScientific app) (Nat.odd (toggles es)).
Proof.
  induction es as [|e es IH]; intros app w app' E; cbn [run] in E.
  - apply Some_eq in E. subst app'. cbn. now rewrite xorb_false_r.
  - unfold bind in E.
    destruct (handle captured app e w) as [[app1|] w1] eqn:Eh; cbn in E;
      [|discriminate].
    rewrite (IH app1 w1 app' E).
    pose proof (handle_shape captured app e w) as H. rewrite Eh in H.
    cbn [fst] in H. destruct e; cbn [handled toggles] in *.
    + destruct H as [np [_ H]]. apply Some_eq in H. now subst app1.
    + destruct H as [x [now [_ H]]].
      destruct (lastOf (history app)); [|discriminate].
      apply Some_eq in H. now subst app1.
    + apply Some_eq in H. subst app1. cbn [modeScientific].
      rewrite Nat.odd_succ, <- Nat.negb_odd.
      destruct (modeScientific app), (Nat.odd (toggles es)); reflexivity.
Qed.

(** X23: at the end of a session the scientific view is on exactly when
    the view button was clicked an odd number of times; ticks and forced
    refills leave the mode alone. *)
Theorem mode_counts_toggles (es : list Event) (w : World) :
  exists app, fst (session es w) = Some app /\
              modeScientific app = Nat.odd (toggles es).
Proof.
  destruct (session_full es w) as [app [E _]].
  exists app. split; [exact E|].
  unfold session, bind in E.
  destruct (dateNow w) as [t0 w0].
  assert (Hm : modeScientific (fst (mount (initialApp t0) w0)) = false).
  { unfold mount, bind, ret. now destruct (seed _ w0). }
  destruct (mount (initialApp t0) w0) as [app1 w1]. cbn [fst] in Hm.
  rewrite (run_mode _ es app1 w1 app E), Hm. reflexivity.
Qed.
